(** * Arithmetic stack problems: LaTeX generation and extraction

    A shallow embedding of [genlatex.py] (problem synthesis, serialization
    into the array markup, document assembly) and of the text pipeline of
    [latex_to_image.py] (layered regular-expression extraction of the array
    blocks, block parsing and width computation), followed by the properties
    proved about them.

    Python values are modelled as follows: [int] is [Z]; [str] is a list of
    Unicode code points ([N]); a raised exception is the [Raise] branch of
    [result]; the ambient [random] module is an explicit infinite sequence
    of raw draws threaded through the generator. *)

From Stdlib Require Import String Ascii Decimal.
From Stdlib Require Import ZArith NArith List Bool Lia.
From Stdlib Require DecimalPos.
Import ListNotations.

Set Implicit Arguments.

(** ** Python strings, exceptions and built-ins *)

Module Py.

Definition char := N.
Definition str := list char.

(** A source literal, read as its sequence of code points. *)
Definition lit (s : string) : str := map N_of_ascii (list_ascii_of_string s).

Definition NL : char := 10%N.

Inductive exn := ValueError | IndexError | SystemExit.

Inductive result (A : Type) : Type :=
| Ok (a : A)
| Raise (e : exn).
Arguments Ok {A} a.
Arguments Raise {A} e.

Definition rbind {A B} (c : result A) (k : A -> result B) : result B :=
  match c with
  | Ok a => k a
  | Raise e => Raise e
  end.

(** [str.isspace] on one code point; the same set is [\s] of [re] on [str]
    patterns and the default set of [str.strip]. *)
Definition isspace (c : char) : bool :=
  (((9 <=? c) && (c <=? 13)) || ((28 <=? c) && (c <=? 32))
   || (c =? 133) || (c =? 160) || (c =? 5760)
   || ((8192 <=? c) && (c <=? 8202))
   || (c =? 8232) || (c =? 8233) || (c =? 8239) || (c =? 8287)
   || (c =? 12288))%N.

Fixpoint lstrip (s : str) : str :=
  match s with
  | [] => []
  | c :: s' => if isspace c then lstrip s' else s
  end.

Fixpoint rstrip (s : str) : str :=
  match s with
  | [] => []
  | c :: s' =>
      match rstrip s' with
      | [] => if isspace c then [] else [c]
      | r => c :: r
      end
  end.

(** [s.strip()] *)
Definition strip (s : str) : str := rstrip (lstrip s).

(** [s.startswith(p)] *)
Fixpoint startswith (s p : str) {struct p} : bool :=
  match p with
  | [] => true
  | c :: p' =>
      match s with
      | [] => false
      | x :: s' => (x =? c)%N && startswith s' p'
      end
  end.

(** [s.replace(old, new)]: every non-overlapping occurrence, left to right.
    [skip] counts the characters of a replaced occurrence still to pass. *)
Fixpoint replace_go (old new : str) (skip : nat) (s : str) : str :=
  match s with
  | [] => []
  | c :: s' =>
      match skip with
      | S k => replace_go old new k s'
      | O =>
          if startswith s old
          then new ++ replace_go old new (length old - 1) s'
          else c :: replace_go old new 0 s'
      end
  end.

Definition replace (s old new : str) : str :=
  match old with
  | [] => new ++ flat_map (fun c => c :: new) s
  | _ => replace_go old new 0 s
  end.

Definition cons_head (c : char) (l : list str) : list str :=
  match l with
  | [] => [[c]]
  | p :: ps => (c :: p) :: ps
  end.

Fixpoint split_go (sep : str) (skip : nat) (s : str) : list str :=
  match s with
  | [] => [[]]
  | c :: s' =>
      match skip with
      | S k => split_go sep k s'
      | O =>
          if startswith s sep
          then [] :: split_go sep (length sep - 1) s'
          else cons_head c (split_go sep 0 s')
      end
  end.

(** [s.split(sep)]; an empty separator is a [ValueError]. *)
Definition split (s sep : str) : result (list str) :=
  match sep with
  | [] => Raise ValueError
  | _ => Ok (split_go sep 0 s)
  end.

(** [sep.join(parts)] *)
Fixpoint join (sep : str) (parts : list str) : str :=
  match parts with
  | [] => []
  | [p] => p
  | p :: ps => p ++ sep ++ join sep ps
  end.

(** Decimal digits of [str(n)]. *)
Fixpoint uint_chars (d : Decimal.uint) : str :=
  match d with
  | Nil => []
  | D0 d => 48%N :: uint_chars d
  | D1 d => 49%N :: uint_chars d
  | D2 d => 50%N :: uint_chars d
  | D3 d => 51%N :: uint_chars d
  | D4 d => 52%N :: uint_chars d
  | D5 d => 53%N :: uint_chars d
  | D6 d => 54%N :: uint_chars d
  | D7 d => 55%N :: uint_chars d
  | D8 d => 56%N :: uint_chars d
  | D9 d => 57%N :: uint_chars d
  end.

(** [str(n)] for an [int]. *)
Definition str_of_int (n : Z) : str :=
  match n with
  | Z0 => [48%N]
  | Zpos p => uint_chars (Pos.to_uint p)
  | Zneg p => 45%N :: uint_chars (Pos.to_uint p)
  end.

(** [l[i]], with Python's negative indices. *)
Definition getitem {A} (l : list A) (i : Z) : result A :=
  let n := Z.of_nat (length l) in
  let j := if (i <? 0)%Z then (i + n)%Z else i in
  if ((j <? 0) || (n <=? j))%Z then Raise IndexError
  else match nth_error l (Z.to_nat j) with
       | Some x => Ok x
       | None => Raise IndexError
       end.

(** [range(n)] *)
Definition range (n : Z) : list Z := map Z.of_nat (seq 0 (Z.to_nat n)).

(** [len(s)] *)
Definition len {A} (l : list A) : Z := Z.of_nat (length l).

Definition str_eqb (a b : str) : bool :=
  if list_eq_dec N.eq_dec a b then true else false.

End Py.

Import Py.

Notation "x <-? c ;; k" := (rbind c (fun x => k))
  (at level 61, c at next level, right associativity).

(** ** The pseudo-random source *)

Module Random.

(** The state of the generator: the raw draws still to come. *)
Definition rng := nat -> Z.

Definition M (A : Type) : Type := rng -> result (A * rng).

Definition ret {A} (a : A) : M A := fun g => Ok (a, g).

Definition bind {A B} (c : M A) (k : A -> M B) : M B :=
  fun g =>
    match c g with
    | Ok (a, g') => k a g'
    | Raise e => Raise e
    end.

Definition lift {A} (r : result A) : M A :=
  fun g =>
    match r with
    | Ok a => Ok (a, g)
    | Raise e => Raise e
    end.

Definition next (g : rng) : rng := fun n => g (S n).

(** [random.randint(a, b)]: some integer of [[a, b]]; an empty range is a
    [ValueError]. *)
Definition randint (a b : Z) : M Z :=
  fun g =>
    if (b <? a)%Z then Raise ValueError
    else Ok ((a + (g O) mod (b - a + 1))%Z, next g).

(** [random.choice(seq)] *)
Definition choice {A} (l : list A) : M A :=
  fun g =>
    match l with
    | [] => Raise IndexError
    | _ =>
        match nth_error l (Z.to_nat ((g O) mod (len l))) with
        | Some x => Ok (x, next g)
        | None => Raise IndexError
        end
    end.

(** [for x in l: s = body x s] *)
Fixpoint for_each {A S} (l : list A) (body : A -> S -> M S) (s : S) : M S :=
  match l with
  | [] => ret s
  | x :: l' => bind (body x s) (for_each l' body)
  end.

End Random.

Import Random.

Notation "x <- c ;; k" := (bind c (fun x => k))
  (at level 61, c at next level, right associativity).

Fixpoint rfor_each {A S} (l : list A) (body : A -> S -> result S) (s : S)
  : result S :=
  match l with
  | [] => Ok s
  | x :: l' => s' <-? body x s ;; rfor_each l' body s'
  end.

Arguments lit s%_string.

(** ** genlatex.py *)

Module GenLatex.

Local Open Scope Z_scope.

(** The local variables [n_numbers], [numbers] and [operators] of
    [generate_problem_latex] once the number generation is over. *)
Record problem := Problem {
  n_numbers : Z;
  numbers : list Z;
  operators : list str
}.

(** [generate_problem_latex], the number generation: from the draw of
    [n_numbers] to the end of the [if n_numbers == 2: ... else: ...]. *)
Definition synthesize (operation_type : str) (max_stack_height : Z)
  : M problem :=
  n_numbers <- randint 2 max_stack_height ;;
  if n_numbers =? 2 then
    num1 <- randint 10 999 ;;
    num2 <- randint 1 99 ;;
    subtraction <-
      (if str_eqb operation_type (lit "minus") then ret true
       else if str_eqb operation_type (lit "mix")
            then choice [true; false]
            else ret false) ;;
    if (subtraction : bool) then
      ab <- (if num1 <=? num2
             then r <- randint 10 50 ;; ret (num2 + r, num1)
             else ret (num1, num2)) ;;
      ret (Problem n_numbers [fst ab; snd ab] [lit "-"])
    else
      ret (Problem n_numbers [num1; num2] [lit "+"])
  else
    numbers <- for_each (range n_numbers)
                 (fun _ numbers =>
                    x <- randint 1 99 ;; ret (numbers ++ [x])) [] ;;
    let operators :=
      fold_left
        (fun operators _ =>
           if str_eqb operation_type (lit "plus")
           then operators ++ [lit "+"]
           else if str_eqb operation_type (lit "mix")
                then operators ++ [lit "+"]
                else operators)
        (range (n_numbers - 1)) [] in
    ret (Problem n_numbers numbers operators).

(** [generate_problem_latex], the construction of the LaTeX string. *)
Definition serialize (p : problem) : result str :=
  latex_parts <-?
    rfor_each (range (n_numbers p - 1))
      (fun i latex_parts =>
         x <-? getitem (numbers p) i ;;
         Ok (latex_parts ++ [lit " " ++ str_of_int x ++ lit " "])) [] ;;
  last_op_char <-? getitem (operators p) (-1) ;;
  x <-? getitem (numbers p) (n_numbers p - 1) ;;
  let latex_parts :=
    latex_parts ++ [lit " " ++ last_op_char ++ str_of_int x ++ lit " "] in
  let problem_latex := join (lit " \\" ++ [NL]) latex_parts in
  let problem_latex := problem_latex ++ lit " \\" ++ [NL] ++ lit " \hline " in
  Ok (lit "$ \begin{array}{r}" ++ [NL] ++ problem_latex ++ [NL]
        ++ lit "\end{array} $").

Definition generate_problem_latex (operation_type : str)
  (max_stack_height : Z) : M str :=
  p <- synthesize operation_type max_stack_height ;;
  lift (serialize p).

(** The header, after the [%] formatting with [num_problems_per_row]. *)
Definition header (num_problems_per_row : Z) : str :=
  lit "\documentclass{article}" ++ [NL]
  ++ lit "\usepackage{amsmath} % Required for the align environment, etc."
  ++ [NL]
  ++ lit "\usepackage{geometry} % For page margins" ++ [NL]
  ++ lit "\geometry{a4paper, margin=1in} % Set margins" ++ [NL]
  ++ [NL]
  ++ lit "\begin{document}" ++ [NL]
  ++ lit "\centering" ++ [NL]
  ++ [NL]
  ++ lit "\begin{tabular}{*{" ++ str_of_int num_problems_per_row
  ++ lit "}{c}}" ++ [NL].

Definition footer : str :=
  lit "\end{tabular}" ++ [NL] ++ [NL] ++ lit "\end{document}".

(** One element of [problems_content]: the cells of row [r] joined, the row
    break on every row but the last, and the newline. *)
Definition row_text (num_rows r : Z) (row_problems : list str) : str :=
  join (lit " & ") row_problems
  ++ (if r <? num_rows - 1 then lit " \\" else [])
  ++ [NL].

Definition generate_latex_document (operation_type : str)
  (num_problems_per_row num_rows max_stack_height : Z) : M str :=
  problems_content <-
    for_each (range num_rows)
      (fun r problems_content =>
         row_problems <-
           for_each (range num_problems_per_row)
             (fun _ row_problems =>
                p <- generate_problem_latex operation_type max_stack_height ;;
                ret (row_problems ++ [p])) [] ;;
         ret (problems_content ++ [row_text num_rows r row_problems])) [] ;;
  ret (header num_problems_per_row ++ concat problems_content ++ footer).



(** The document text for an explicit grid of cells: what
    [generate_latex_document] returns when its rows hold these cells. *)
Definition assemble_document (num_problems_per_row : Z)
  (rows : list (list str)) : str :=
  header num_problems_per_row
  ++ concat (map (fun ir => row_text (len rows) (fst ir) (snd ir))
               (combine (range (len rows)) rows))
  ++ footer.

End GenLatex.

(** ** The fragment of [re] used by latex_to_image.py

    A backtracking matcher in continuation-passing style, with the priority
    order of Python's engine: a lazy star tries the continuation before it
    consumes a character, a greedy star after. All patterns of the source
    are compiled with [re.DOTALL] or contain no dot, so [.] is any
    character. The patterns have at most one group. *)

Module Re.

Inductive cclass :=
| Dot      (* . under re.DOTALL *)
| Space.   (* \s *)

Inductive node :=
| Char (c : char)       (* a literal, possibly escaped, character *)
| Lazy (k : cclass)     (* k*? *)
| Greedy (k : cclass)   (* k* *)
| Bol                   (* ^ *)
| Eol                   (* $ *)
| Open                  (* ( *)
| Close.                (* ) *)

Definition regex := list node.

Definition chars (s : str) : regex := map Char s.

Definition in_class (k : cclass) (c : char) : bool :=
  match k with
  | Dot => true
  | Space => isspace c
  end.

(** What a successful match reports: group 1 and the end position. *)
Definition outcome := (str * nat)%type.

Fixpoint lazy_star (cl : char -> bool) (k : str -> nat -> option outcome)
  (s : str) (i : nat) : option outcome :=
  match k s i with
  | Some r => Some r
  | None =>
      match s with
      | [] => None
      | c :: s' => if cl c then lazy_star cl k s' (S i) else None
      end
  end.

Fixpoint greedy_star (cl : char -> bool) (k : str -> nat -> option outcome)
  (s : str) (i : nat) : option outcome :=
  match s with
  | [] => k s i
  | c :: s' =>
      if cl c
      then match greedy_star cl k s' (S i) with
           | Some r => Some r
           | None => k s i
           end
      else k s i
  end.

(** [$] without [re.MULTILINE]: at the end, or before a final newline. *)
Definition at_eol (s : str) : bool :=
  match s with
  | [] => true
  | [c] => (c =? NL)%N
  | _ => false
  end.

(** [rmatch p cap grp s i]: match [p] against [s], the text from position
    [i] on; [cap] is the text that was left when the group opened, [grp]
    the text of the group once closed. *)
Fixpoint rmatch (p : regex) (cap grp : str) (s : str) (i : nat)
  : option outcome :=
  match p with
  | [] => Some (grp, i)
  | Char c :: p' =>
      match s with
      | [] => None
      | x :: s' => if (x =? c)%N then rmatch p' cap grp s' (S i) else None
      end
  | Lazy k :: p' => lazy_star (in_class k) (rmatch p' cap grp) s i
  | Greedy k :: p' => greedy_star (in_class k) (rmatch p' cap grp) s i
  | Bol :: p' => if Nat.eqb i 0 then rmatch p' cap grp s i else None
  | Eol :: p' => if at_eol s then rmatch p' cap grp s i else None
  | Open :: p' => rmatch p' s grp s i
  | Close :: p' => rmatch p' cap (firstn (length cap - length s) cap) s i
  end.

(** The leftmost match at or after position [i]; [s] is the text from [i]. *)
Fixpoint search_from (p : regex) (s : str) (i : nat) : option str :=
  match rmatch p [] [] s i with
  | Some (g, _) => Some g
  | None =>
      match s with
      | [] => None
      | _ :: s' => search_from p s' (S i)
      end
  end.

(** [re.search(p, s)], reduced to what the source reads of the match
    object: [None], or group 1. *)
Definition search (p : regex) (s : str) : option str := search_from p s 0.

(** [skip] counts the characters of the last match still to pass. The
    pattern given to [findall] in the source matches at least two
    characters; after an empty match the scan moves on by one. *)
Fixpoint findall_go (p : regex) (skip : nat) (s : str) (i : nat) : list str :=
  match skip with
  | S k =>
      match s with
      | [] => []
      | _ :: s' => findall_go p k s' (S i)
      end
  | O =>
      match rmatch p [] [] s i with
      | Some (g, e) =>
          g :: match s with
               | [] => []
               | _ :: s' => findall_go p (e - i - 1) s' (S i)
               end
      | None =>
          match s with
          | [] => []
          | _ :: s' => findall_go p 0 s' (S i)
          end
      end
  end.

(** [re.findall(p, s)] for a pattern with one group. *)
Definition findall (p : regex) (s : str) : list str := findall_go p 0 s 0.

End Re.

(** ** latex_to_image.py *)

Module LatexToImage.

Import Re.

Local Open Scope Z_scope.

(** [r'\\begin\{document\}(.*?)\\end\{document\}'] *)
Definition document_re : regex :=
  chars (lit "\begin{document}") ++ [Open; Lazy Dot; Close]
  ++ chars (lit "\end{document}").

(** [r'\\begin\{tabular\}\{.*?\}\s*(.*?)\s*\\end\{tabular\}'] *)
Definition tabular_re : regex :=
  chars (lit "\begin{tabular}") ++ [Char 123%N; Lazy Dot; Char 125%N]
  ++ [Greedy Space; Open; Lazy Dot; Close; Greedy Space]
  ++ chars (lit "\end{tabular}").

(** [r'\$(.*?)\$'] *)
Definition math_re : regex :=
  [Char 36%N; Open; Lazy Dot; Close; Char 36%N].

(** [r'^\s*(\\begin\{array\}.*?\\end\{array\})\s*$'] *)
Definition array_re : regex :=
  [Bol; Greedy Space; Open] ++ chars (lit "\begin{array}") ++ [Lazy Dot]
  ++ chars (lit "\end{array}") ++ [Close; Greedy Space; Eol].

(** [r'\\hline'] *)
Definition hline_re : regex := chars (lit "\hline").

(** The two narrowing steps: the interior of the document environment when
    there is one, then the interior of the tabular when there is one. *)
Definition narrow (latex_content : str) : str :=
  let processed_content :=
    match search document_re latex_content with
    | Some g => g
    | None => latex_content
    end in
  match search tabular_re processed_content with
  | Some g => g
  | None => processed_content
  end.

(** [math_blocks], as the loop over [all_raw_math_expressions] leaves it. *)
Definition math_blocks (latex_content : str) : list str :=
  let processed_content := narrow latex_content in
  let all_raw_math_expressions := findall math_re processed_content in
  fold_left
    (fun math_blocks raw_expr =>
       match search array_re raw_expr with
       | Some g => math_blocks ++ [strip g]
       | None => math_blocks
       end)
    all_raw_math_expressions [].

(** An element of [parsed_lines_data]. *)
Inductive parsed_line :=
| Hline
| Number (operator : str) (number_string : str).

(** The variables of the per-block loop that the width computation reads. *)
Record parse_state := ParseState {
  parsed_lines_data : list parsed_line;
  max_number_part_len : Z;
  has_operator_column : bool
}.

(** One iteration of [for line_content in raw_lines]. *)
Definition parse_line (line_content : str) (st : parse_state)
  : result parse_state :=
  let line_content := strip line_content in
  match line_content with
  | [] => Ok st
  | _ =>
      match search hline_re line_content with
      | Some _ =>
          Ok (ParseState (parsed_lines_data st ++ [Hline])
                (max_number_part_len st) (has_operator_column st))
      | None =>
          let operator := [] in
          let number_string := line_content in
          ons <-?
            (if startswith number_string (lit "+")
                || startswith number_string (lit "-")
             then
               c <-? getitem number_string 0 ;;
               Ok ([c], strip (tl number_string), true)
             else Ok (operator, number_string, has_operator_column st)) ;;
          let '(operator, number_string, has_op) := ons in
          Ok (ParseState
                (parsed_lines_data st ++ [Number operator number_string])
                (Z.max (max_number_part_len st) (len number_string))
                has_op)
      end
  end.

(** [raw_lines]: the block without the delimiters of the array and
    without [&], split on the row breaks. *)
Definition raw_lines (latex_block : str) : result (list str) :=
  let block_content :=
    replace (replace latex_block (lit "\begin{array}{r}") [])
      (lit "\end{array}") [] in
  let block_content := replace block_content (lit "&") [] in
  split block_content (lit "\\").

(** What the loop over [math_blocks] has computed for one block when the
    widths are known. *)
Record layout := Layout {
  lines : list parsed_line;
  number_width : Z;
  has_operator : bool;
  operator_col_width : Z;
  final_display_width : Z
}.

(** The body of the loop over [math_blocks] for one block, up to the
    computation of the widths. *)
Definition parse_block (latex_block : str) : result layout :=
  let block_content :=
    replace (replace latex_block (lit "\begin{array}{r}") [])
      (lit "\end{array}") [] in
  let block_content := replace block_content (lit "&") [] in
  raw_lines <-? split block_content (lit "\\") ;;
  st <-? rfor_each raw_lines (fun line st => parse_line line st)
           (ParseState [] 0 false) ;;
  let operator_col_width := if has_operator_column st then 2 else 0 in
  let min_hline_width := 5 in
  let calculated_content_width :=
    max_number_part_len st + operator_col_width in
  let final_display_width :=
    Z.max calculated_content_width min_hline_width in
  Ok (Layout (parsed_lines_data st) (max_number_part_len st)
        (has_operator_column st) operator_col_width final_display_width).

Definition is_number (l : parsed_line) : bool :=
  match l with Number _ _ => true | Hline => false end.

Definition is_hline (l : parsed_line) : bool :=
  match l with Hline => true | Number _ _ => false end.

Definition has_sign (l : parsed_line) : bool :=
  match l with
  | Number (_ :: _) _ => true
  | _ => false
  end.

(** [s.rjust(width)]: blanks in front up to [width]; a string that is
    already as long is returned as it is. *)
Definition rjust (s : str) (width : Z) : str :=
  repeat 32%N (Z.to_nat (width - len s)) ++ s.

(** [s * n]; empty when [n] is not positive. *)
Definition str_mul (s : str) (n : Z) : str := concat (repeat s (Z.to_nat n)).

(** One iteration of [for line_data in parsed_lines_data]: the element
    appended to [aligned_output_lines]. *)
Definition aligned_line (max_number_part_len : Z)
  (has_operator_column : bool) (final_display_width : Z)
  (line_data : parsed_line) : str :=
  match line_data with
  | Hline => str_mul (lit "-") final_display_width
  | Number operator number_string =>
      let padded_number := rjust number_string max_number_part_len in
      let operator_prefix :=
        if has_operator_column
        then match operator with
             | [] => lit "  "
             | _ => operator ++ lit " "
             end
        else [] in
      operator_prefix ++ padded_number
  end.

Definition aligned_output_lines (lay : layout) : list str :=
  map (aligned_line (number_width lay) (has_operator lay)
         (final_display_width lay))
    (lines lay).

(** [simplified_latex_block], the text handed to the figure for one block. *)
Definition simplified_latex_block (latex_block : str) : result str :=
  lay <-? parse_block latex_block ;;
  Ok (join [NL] (aligned_output_lines lay)).

(** The texts of all the blocks of a file content, in the order of the
    subplots. *)
Definition rendered_blocks (latex_content : str) : result (list str) :=
  rfor_each (math_blocks latex_content)
    (fun latex_block texts =>
       t <-? simplified_latex_block latex_block ;; Ok (texts ++ [t]))
    [].

End LatexToImage.

Import GenLatex Re LatexToImage.

Unset Implicit Arguments.

(** ** Auxiliary notions used in the statements and proofs *)

Module Aux.

(** [agree t p]: [t] and [p] coincide on their common length, so that some
    extension of [t] may start with [p]. *)
Fixpoint agree (t p : str) : bool :=
  match t, p with
  | x :: t', c :: p' => (x =? c)%N && agree t' p'
  | _, _ => true
  end.

(** [free p x]: no occurrence of [p] can begin inside [x], whatever text
    follows [x]. *)
Fixpoint free (p x : str) : bool :=
  match x with
  | [] => true
  | _ :: x' => negb (agree x p) && free p x'
  end.

Definition allspace (w : str) : bool := forallb isspace w.

Definition nospace (t : str) : bool := forallb (fun c => negb (isspace c)) t.

(** No character of [x] is [c]. *)
Definition lacks (c : char) (x : str) : bool :=
  forallb (fun a => negb (a =? c)%N) x.

(** [prepend x l]: [x] put in front of the first piece of [l]. *)
Definition prepend (x : str) (l : list str) : list str :=
  match l with
  | [] => [x]
  | p :: ps => (x ++ p) :: ps
  end.

Definition dollar : char := 36%N.

(** [Spans T xs]: the text [T] is made of the spans [$x$], for the [x] of
    [xs] in this order, separated by texts without a dollar sign. *)
Inductive Spans : str -> list str -> Prop :=
| Spans_gap (g : str) :
    lacks dollar g = true -> Spans g []
| Spans_cons (g x t : str) (xs : list str) :
    lacks dollar g = true -> lacks dollar x = true -> Spans t xs ->
    Spans (g ++ dollar :: x ++ dollar :: t) (x :: xs).

(** A continuation that can only succeed on a text starting with [l]. *)
Definition guarded (l : str) (k : str -> nat -> option Re.outcome) : Prop :=
  forall t s j, agree t l = false -> k (t ++ s) j = None.

Definition B_array : str := lit "\begin{array}".
Definition E_array : str := lit "\end{array}".

Definition endswith (s e : str) : bool := startswith (rev s) (rev e).

(** The filter of the extraction, in the words of its description: after
    trimming, the span consists entirely of one array environment. *)
Definition is_array_span (x : str) : bool :=
  let t := strip x in
  startswith t B_array && endswith t E_array
  && (24 <=? length t)%nat.

Definition is_sign (o : str) : bool :=
  str_eqb o (lit "+") || str_eqb o (lit "-").

(** A problem as the data model has it: as many operands as announced,
    operators among [+] and [-]. *)
Definition well_formed (p : GenLatex.problem) : Prop :=
  GenLatex.n_numbers p = len (GenLatex.numbers p)
  /\ Forall (fun o => is_sign o = true) (GenLatex.operators p).

(** The end of an operand line: the closing blank of the part, then the
    separator of the join. *)
Definition line_end : str := lit "  \\" ++ [NL].

Definition body (init : list Z) (op : str) (last : Z) : str :=
  concat (map (fun x => 32%N :: str_of_int x ++ line_end) init)
  ++ 32%N :: op ++ str_of_int last ++ line_end ++ lit " \hline ".

(** The array environment of a serialized problem. *)
Definition array_text (init : list Z) (op : str) (last : Z) : str :=
  lit "\begin{array}{r}" ++ NL :: body init op last
  ++ NL :: lit "\end{array}".

(** The serialized problem. *)
Definition block_text (init : list Z) (op : str) (last : Z) : str :=
  dollar :: 32%N :: array_text init op last ++ [32%N; dollar].

(** A block produced by the serializer from a well-formed problem. *)
Definition wf_block (b : str) : Prop :=
  exists p, well_formed p /\ GenLatex.serialize p = Ok b.

(** What lies between the two dollar signs of a block. *)
Definition inner (b : str) : str := removelast (tl b).

(** The array environment of a block: its contents between the dollar
    signs, trimmed. *)
Definition array_of (b : str) : str := strip (inner b).

(** The raw lines of the array of a serialized problem, as the split on
    the line break leaves them. *)
Definition piece (x : Z) : str := NL :: 32%N :: str_of_int x ++ [32%N; 32%N].

Definition last_piece (op : str) (x : Z) : str :=
  NL :: 32%N :: op ++ str_of_int x ++ [32%N; 32%N].

Definition hline_piece : str := NL :: lit " \hline " ++ [NL].

(** The parsed line of an operand that is not the last. *)
Definition operand_line (x : Z) : LatexToImage.parsed_line :=
  if (x <? 0)%Z
  then LatexToImage.Number [45%N] (str_of_int (- x))
  else LatexToImage.Number [] (str_of_int x).

Definition operand_width (m x : Z) : Z :=
  Z.max m (len (str_of_int (Z.abs x))).

(** A cell of the table that is one dollar span and in which neither
    wrapper ends. *)
Definition span_cell (b : str) : Prop :=
  Spans b [inner b]
  /\ free (lit "\end{document}") b = true
  /\ free (lit "\end{tabular}") b = true.

(** Such a cell whose span passes the filter of the extraction. *)
Definition cell_ok (b : str) : Prop :=
  span_cell b /\ is_array_span (inner b) = true.

(** The fixed parts of a serialized block. *)
Definition fixed_parts : str :=
  lit "\begin{array}{r}" ++ NL :: 32%N :: line_end ++ lit " \hline "
  ++ lit "\end{array}".

(** The end of the array pattern, from the closing literal on. *)
Definition k_end (cap : str) : str -> nat -> option Re.outcome :=
  Re.rmatch (Re.chars E_array ++ [Re.Close; Re.Greedy Re.Space; Re.Eol])
    cap [].

(** [occurs l s]: the text [l] occurs in [s]. *)
Fixpoint occurs (l s : str) : bool :=
  startswith s l
  || match s with
     | [] => false
     | _ :: s' => occurs l s'
     end.



(** A raw line of a block that holds no number: it is blank, or [\hline]
    occurs in it. *)
Definition no_number (line : str) : Prop :=
  strip line = [] \/ occurs (lit "\hline") line = true.

(** The shape of an element of [parsed_lines_data]: a rule; or a number
    without sign, whose text is trimmed, not empty and starts with no
    sign; or a number with one sign character and a trimmed text. *)
Definition line_ok (l : LatexToImage.parsed_line) : Prop :=
  match l with
  | LatexToImage.Hline => True
  | LatexToImage.Number [] ns =>
      ns <> [] /\ strip ns = ns
      /\ startswith ns (lit "+") = false /\ startswith ns (lit "-") = false
  | LatexToImage.Number o ns =>
      (o = lit "+" \/ o = lit "-") /\ strip ns = ns
  end.

(** The invariant of the parsing loop. *)
Definition parse_inv (st : LatexToImage.parse_state) : Prop :=
  (forall o ns,
      In (LatexToImage.Number o ns) (LatexToImage.parsed_lines_data st) ->
      (len ns <= LatexToImage.max_number_part_len st)%Z)
  /\ (LatexToImage.max_number_part_len st = 0%Z
      \/ exists o ns,
           In (LatexToImage.Number o ns) (LatexToImage.parsed_lines_data st)
           /\ len ns = LatexToImage.max_number_part_len st)
  /\ LatexToImage.has_operator_column st
     = existsb LatexToImage.has_sign (LatexToImage.parsed_lines_data st)
  /\ Forall line_ok (LatexToImage.parsed_lines_data st).

(** A block that some run of the generator returns. *)
Definition generated (operation_type : str) (max_stack_height : Z)
  (b : str) : Prop :=
  exists g g',
    GenLatex.generate_problem_latex operation_type max_stack_height g
    = Ok (b, g').

(** The longest decimal text among operands. *)
Definition longest (xs : list Z) : Z :=
  fold_right (fun x m => Z.max (len (str_of_int x)) m) 0%Z xs.

End Aux.

Import Aux.

(** * Lemmas *)

(** Appends are compared in right-nested form. *)
Ltac norm_app :=
  repeat first [ rewrite <- app_assoc
               | rewrite <- app_comm_cons
               | progress (cbn [app]) ].

(** ** Strings *)

Section StringFacts.

Lemma startswith_app (p s : str) : startswith (p ++ s) p = true.
Proof.
  induction p as [|c p IH]; simpl; [reflexivity|].
  now rewrite N.eqb_refl, IH.
Qed.

Lemma agree_app (x y p : str) : agree x p = false -> agree (x ++ y) p = false.
Proof.
  revert p. induction x as [|a x IH]; intros p H; [discriminate|].
  destruct p as [|c p]; [discriminate|]. simpl in *.
  destruct (a =? c)%N; [|reflexivity]. simpl in *. now apply IH.
Qed.

Lemma agree_false_startswith (t s p : str) :
  agree t p = false -> startswith (t ++ s) p = false.
Proof.
  revert p. induction t as [|a t IH]; intros p H; [discriminate|].
  destruct p as [|c p]; [discriminate|]. simpl in *.
  destruct (a =? c)%N; [|reflexivity]. simpl in *. now apply IH.
Qed.

Lemma free_cons (p : str) (a : char) (x : str) :
  free p (a :: x) = negb (agree (a :: x) p) && free p x.
Proof. reflexivity. Qed.

Lemma free_app (p x y : str) :
  free p x = true -> free p y = true -> free p (x ++ y) = true.
Proof.
  intros Hx Hy. induction x as [|a x IH]; [exact Hy|].
  rewrite free_cons in Hx. apply andb_true_iff in Hx as [Ha Hx].
  change ((a :: x) ++ y) with (a :: (x ++ y)). rewrite free_cons.
  apply negb_true_iff in Ha.
  change (a :: x ++ y) with ((a :: x) ++ y).
  rewrite (agree_app _ y _ Ha). simpl. now apply IH.
Qed.

Lemma free_concat_map {A} (p : str) (f : A -> str) (l : list A) :
  (forall a, In a l -> free p (f a) = true) ->
  free p (concat (map f l)) = true.
Proof.
  induction l as [|a l IH]; intros H; [reflexivity|]. simpl.
  apply free_app; [apply H; now left | apply IH; intros; apply H; now right].
Qed.

Lemma lacks_app (c : char) (x y : str) :
  lacks c (x ++ y) = lacks c x && lacks c y.
Proof. apply forallb_app. Qed.

Lemma free_lacks (c : char) (p x : str) :
  lacks c x = true -> free (c :: p) x = true.
Proof.
  induction x as [|a x IH]; intros H; [reflexivity|].
  simpl in H. apply andb_true_iff in H as [Ha Hx].
  simpl. apply negb_true_iff in Ha. rewrite Ha. simpl. now apply IH.
Qed.

Lemma replace_go_skip (old new r s : str) :
  replace_go old new (length r) (r ++ s) = replace_go old new 0 s.
Proof. induction r as [|a r IH]; [reflexivity | exact IH]. Qed.

Lemma replace_go_hit (old new s : str) :
  old <> [] ->
  replace_go old new 0 (old ++ s) = new ++ replace_go old new 0 s.
Proof.
  destruct old as [|c r]; [contradiction|]. intros _.
  change (replace_go (c :: r) new 0 ((c :: r) ++ s)) with
    (if startswith ((c :: r) ++ s) (c :: r)
     then new ++ replace_go (c :: r) new (length (c :: r) - 1) (r ++ s)
     else c :: replace_go (c :: r) new 0 (r ++ s)).
  rewrite startswith_app.
  replace (length (c :: r) - 1)%nat with (length r) by (simpl; lia).
  now rewrite replace_go_skip.
Qed.

Lemma replace_go_free (old new x s : str) :
  free old x = true ->
  replace_go old new 0 (x ++ s) = x ++ replace_go old new 0 s.
Proof.
  induction x as [|a x IH]; intros H; [reflexivity|].
  rewrite free_cons in H. apply andb_true_iff in H as [Ha Hx].
  apply negb_true_iff in Ha.
  change (replace_go old new 0 ((a :: x) ++ s)) with
    (if startswith ((a :: x) ++ s) old
     then new ++ replace_go old new (length old - 1) (x ++ s)
     else a :: replace_go old new 0 (x ++ s)).
  rewrite (agree_false_startswith _ s _ Ha). simpl. f_equal. now apply IH.
Qed.

Lemma replace_free (x old new : str) :
  old <> [] -> free old x = true -> replace x old new = x.
Proof.
  intros Hne H. unfold replace. destruct old as [|c r]; [contradiction|].
  rewrite <- (app_nil_r x) at 1. rewrite replace_go_free by exact H.
  simpl. apply app_nil_r.
Qed.

Lemma split_go_skip (sep r s : str) :
  split_go sep (length r) (r ++ s) = split_go sep 0 s.
Proof. induction r as [|a r IH]; [reflexivity | exact IH]. Qed.

Lemma split_go_hit (sep s : str) :
  sep <> [] -> split_go sep 0 (sep ++ s) = [] :: split_go sep 0 s.
Proof.
  destruct sep as [|c r]; [contradiction|]. intros _.
  change (split_go (c :: r) 0 ((c :: r) ++ s)) with
    (if startswith ((c :: r) ++ s) (c :: r)
     then [] :: split_go (c :: r) (length (c :: r) - 1) (r ++ s)
     else cons_head c (split_go (c :: r) 0 (r ++ s))).
  rewrite startswith_app.
  replace (length (c :: r) - 1)%nat with (length r) by (simpl; lia).
  now rewrite split_go_skip.
Qed.

Lemma split_go_nonempty (sep : str) (k : nat) (s : str) :
  split_go sep k s <> [].
Proof.
  revert k. induction s as [|a s IH]; intros k; [discriminate|].
  simpl. destruct k; [|apply IH].
  destruct (startswith (a :: s) sep); [discriminate|].
  specialize (IH 0%nat). destruct (split_go sep 0 s); [contradiction|discriminate].
Qed.

Lemma split_go_free (sep x s : str) :
  free sep x = true ->
  split_go sep 0 (x ++ s) = prepend x (split_go sep 0 s).
Proof.
  induction x as [|a x IH]; intros H.
  - simpl. pose proof (split_go_nonempty sep 0 s).
    destruct (split_go sep 0 s); [contradiction | reflexivity].
  - rewrite free_cons in H. apply andb_true_iff in H as [Ha Hx].
    apply negb_true_iff in Ha.
    change (split_go sep 0 ((a :: x) ++ s)) with
      (if startswith ((a :: x) ++ s) sep
       then [] :: split_go sep (length sep - 1) (x ++ s)
       else cons_head a (split_go sep 0 (x ++ s))).
    rewrite (agree_false_startswith _ s _ Ha), (IH Hx).
    pose proof (split_go_nonempty sep 0 s).
    destruct (split_go sep 0 s); [contradiction | reflexivity].
Qed.

Lemma replace_nonempty (s old new : str) :
  old <> [] -> replace s old new = replace_go old new 0 s.
Proof. now destruct old. Qed.

Lemma split_go_pieces (sep : str) (ps : list str) (q : str) :
  sep <> [] ->
  Forall (fun p => free sep p = true) ps -> free sep q = true ->
  split_go sep 0 (concat (map (fun p => p ++ sep) ps) ++ q) = ps ++ [q].
Proof.
  intros Hsep Hps Hq. induction Hps as [|p ps Hp _ IH].
  - simpl. rewrite <- (app_nil_r q) at 1. rewrite split_go_free by exact Hq.
    simpl. now rewrite app_nil_r.
  - simpl. rewrite <- !app_assoc. rewrite split_go_free by exact Hp.
    rewrite split_go_hit by exact Hsep. rewrite IH. simpl.
    now rewrite app_nil_r.
Qed.

Lemma lstrip_allspace (w s : str) :
  allspace w = true -> lstrip (w ++ s) = lstrip s.
Proof.
  induction w as [|a w IH]; intros H; [reflexivity|].
  simpl in H. apply andb_true_iff in H as [Ha Hw].
  simpl. rewrite Ha. now apply IH.
Qed.

Lemma lstrip_nonspace (c : char) (s : str) :
  isspace c = false -> lstrip (c :: s) = c :: s.
Proof. intros H. simpl. now rewrite H. Qed.

Lemma rstrip_allspace_nil (w : str) : allspace w = true -> rstrip w = [].
Proof.
  induction w as [|a w IH]; intros H; [reflexivity|].
  simpl in H. apply andb_true_iff in H as [Ha Hw].
  simpl. rewrite (IH Hw). now rewrite Ha.
Qed.

Lemma rstrip_app_nonspace (a : str) (c : char) (g : str) :
  isspace c = false -> rstrip (a ++ c :: g) = a ++ c :: rstrip g.
Proof.
  intros Hc.
  assert (Hbase : rstrip (c :: g) = c :: rstrip g).
  { simpl. destruct (rstrip g); [now rewrite Hc | reflexivity]. }
  induction a as [|x a IH]; [exact Hbase|].
  simpl. rewrite IH. now destruct a.
Qed.

Lemma rstrip_app_allspace (s w : str) :
  allspace w = true -> rstrip (s ++ w) = rstrip s.
Proof.
  intros H. induction s as [|x s IH]; simpl.
  - now apply rstrip_allspace_nil.
  - now rewrite IH.
Qed.

Lemma rstrip_nospace (t : str) : nospace t = true -> rstrip t = t.
Proof.
  induction t as [|a t IH]; intros H; [reflexivity|].
  simpl in H. apply andb_true_iff in H as [Ha Ht]. apply negb_true_iff in Ha.
  simpl. rewrite (IH Ht). destruct t; [now rewrite Ha | reflexivity].
Qed.

Lemma strip_padded (w1 t w2 : str) :
  allspace w1 = true -> allspace w2 = true -> nospace t = true ->
  strip (w1 ++ t ++ w2) = t.
Proof.
  intros H1 H2 Ht. unfold strip. rewrite lstrip_allspace by exact H1.
  destruct t as [|c t].
  - simpl. clear Ht. induction w2 as [|a w IH]; [reflexivity|].
    simpl in H2. apply andb_true_iff in H2 as [Ha Hw]. simpl. rewrite Ha.
    now apply IH.
  - pose proof Ht as Ht'. simpl in Ht'. apply andb_true_iff in Ht' as [Hc _].
    apply negb_true_iff in Hc.
    change ((c :: t) ++ w2) with (c :: (t ++ w2)). rewrite lstrip_nonspace by exact Hc.
    change (c :: t ++ w2) with ((c :: t) ++ w2).
    rewrite rstrip_app_allspace by exact H2. now apply rstrip_nospace.
Qed.

End StringFacts.

(** ** The matcher *)

Section RegexFacts.

Lemma rmatch_chars_hit (l : str) (p : regex) (cap grp s : str) (i : nat) :
  rmatch (chars l ++ p) cap grp (l ++ s) i
  = rmatch p cap grp s (i + length l).
Proof.
  revert i. induction l as [|c l IH]; intros i; simpl.
  - now rewrite Nat.add_0_r.
  - rewrite N.eqb_refl, IH. f_equal. lia.
Qed.

Lemma rmatch_chars_miss (l : str) (p : regex) (cap grp s : str) (i : nat) :
  startswith s l = false -> rmatch (chars l ++ p) cap grp s i = None.
Proof.
  revert s i. induction l as [|c l IH]; intros s i H; [discriminate|].
  simpl in *. destruct s as [|x s]; [reflexivity|].
  destruct (x =? c)%N; [|reflexivity]. simpl in H. now apply IH.
Qed.

Lemma guarded_chars (l : str) (p : regex) (cap grp : str) :
  guarded l (rmatch (chars l ++ p) cap grp).
Proof.
  intros t s j H. apply rmatch_chars_miss. now apply agree_false_startswith.
Qed.

Lemma guarded_close (l : str) (p : regex) (cap grp : str) :
  guarded l (rmatch (Close :: chars l ++ p) cap grp).
Proof. intros t s j H. simpl. now apply guarded_chars. Qed.

Lemma lazy_star_cons cl k (c : char) (s : str) (i : nat) :
  lazy_star cl k (c :: s) i
  = match k (c :: s) i with
    | Some r => Some r
    | None => if cl c then lazy_star cl k s (S i) else None
    end.
Proof. reflexivity. Qed.

Lemma lazy_star_hit cl k (s : str) (i : nat) r :
  k s i = Some r -> lazy_star cl k s i = Some r.
Proof. intros H. destruct s; simpl; now rewrite H. Qed.

Lemma lazy_star_skip cl k (l x s : str) (i : nat) :
  guarded l k -> free l x = true -> forallb cl x = true ->
  lazy_star cl k (x ++ s) i = lazy_star cl k s (i + length x).
Proof.
  intros Hk. revert i. induction x as [|a x IH]; intros i Hf Hc.
  - simpl. now rewrite Nat.add_0_r.
  - rewrite free_cons in Hf. apply andb_true_iff in Hf as [Ha Hf].
    apply negb_true_iff in Ha. simpl in Hc. apply andb_true_iff in Hc as [Hca Hc].
    change ((a :: x) ++ s) with (a :: (x ++ s)). rewrite lazy_star_cons.
    change (a :: x ++ s) with ((a :: x) ++ s). rewrite (Hk _ s i Ha), Hca.
    rewrite IH by assumption. f_equal. simpl. lia.
Qed.

Lemma lazy_star_some_inv cl k (z : str) (i : nat) r :
  lazy_star cl k z i = Some r ->
  exists a t, z = a ++ t /\ k t (i + length a) = Some r.
Proof.
  revert i. induction z as [|c z IH]; intros i H.
  - simpl in H. destruct (k [] i) eqn:E; [|discriminate].
    exists [], []. rewrite Nat.add_0_r. split; [reflexivity | congruence].
  - rewrite lazy_star_cons in H. destruct (k (c :: z) i) eqn:E.
    + exists [], (c :: z). rewrite Nat.add_0_r. split; [reflexivity | congruence].
    + destruct (cl c); [|discriminate]. apply IH in H as (a & t & -> & Ht).
      exists (c :: a), t. split; [reflexivity|].
      simpl. now rewrite <- Nat.add_succ_comm.
Qed.

Lemma greedy_star_cons cl k (c : char) (s : str) (i : nat) :
  greedy_star cl k (c :: s) i
  = if cl c
    then match greedy_star cl k s (S i) with
         | Some r => Some r
         | None => k (c :: s) i
         end
    else k (c :: s) i.
Proof. reflexivity. Qed.

Lemma greedy_star_stop cl k (s : str) (i : nat) :
  match s with [] => true | c :: _ => negb (cl c) end = true ->
  greedy_star cl k s i = k s i.
Proof.
  destruct s as [|c s]; intros H; [reflexivity|].
  rewrite greedy_star_cons. apply negb_true_iff in H. now rewrite H.
Qed.

(** A maximal run of the class is taken whole when the continuation
    succeeds after it. *)
Lemma greedy_star_run cl k (w s : str) (i : nat) r :
  forallb cl w = true ->
  match s with [] => true | c :: _ => negb (cl c) end = true ->
  k s (i + length w) = Some r ->
  greedy_star cl k (w ++ s) i = Some r.
Proof.
  revert i. induction w as [|a w IH]; intros i Hw Hs Hk.
  - simpl in *. rewrite Nat.add_0_r in Hk. rewrite greedy_star_stop; assumption.
  - simpl in Hw. apply andb_true_iff in Hw as [Ha Hw].
    change ((a :: w) ++ s) with (a :: (w ++ s)). rewrite greedy_star_cons, Ha.
    rewrite (IH (S i)); try assumption; [reflexivity|].
    simpl in Hk. now rewrite <- Nat.add_succ_comm in Hk.
Qed.

(** When the continuation fails on every text that starts inside the run,
    only the attempt after the whole run counts. *)
Lemma greedy_star_run_only cl k (w s : str) (i : nat) :
  forallb cl w = true ->
  match s with [] => true | c :: _ => negb (cl c) end = true ->
  (forall c t j, cl c = true -> k (c :: t) j = None) ->
  greedy_star cl k (w ++ s) i = k s (i + length w).
Proof.
  revert i. induction w as [|a w IH]; intros i Hw Hs Hk.
  - simpl. rewrite Nat.add_0_r. now apply greedy_star_stop.
  - simpl in Hw. apply andb_true_iff in Hw as [Ha Hw].
    change ((a :: w) ++ s) with (a :: (w ++ s)). rewrite greedy_star_cons, Ha.
    rewrite (IH (S i)) by assumption. rewrite (Hk a _ i Ha).
    replace (i + length (a :: w))%nat with (S i + length w)%nat
      by (simpl; lia).
    now destruct (k s (S i + length w)).
Qed.

Lemma firstn_cap (x s : str) :
  firstn (length (x ++ s) - length s) (x ++ s) = x.
Proof.
  rewrite length_app. replace (length x + length s - length s)%nat with (length x) by lia.
  rewrite firstn_app, Nat.sub_diag, firstn_all. simpl. apply app_nil_r.
Qed.

Lemma search_from_free_none (l : str) (p : regex) (s : str) (i : nat) :
  l <> [] -> free l s = true -> search_from (chars l ++ p) s i = None.
Proof.
  intros Hl. revert i. induction s as [|a s IH]; intros i H.
  - simpl. destruct l; [contradiction | reflexivity].
  - rewrite free_cons in H. apply andb_true_iff in H as [Ha Hs].
    apply negb_true_iff in Ha. simpl.
    pose proof (guarded_chars l p [] [] (a :: s) [] i Ha) as G.
    rewrite app_nil_r in G. rewrite G. now apply IH.
Qed.

Lemma search_from_skip (l : str) (p : regex) (x s : str) (i : nat) :
  free l x = true ->
  search_from (chars l ++ p) (x ++ s) i
  = search_from (chars l ++ p) s (i + length x).
Proof.
  revert i. induction x as [|a x IH]; intros i H.
  - simpl. now rewrite Nat.add_0_r.
  - rewrite free_cons in H. apply andb_true_iff in H as [Ha Hs].
    apply negb_true_iff in Ha.
    change ((a :: x) ++ s) with (a :: (x ++ s)). simpl search_from.
    change (a :: x ++ s) with ((a :: x) ++ s).
    rewrite (guarded_chars l p [] [] (a :: x) s i Ha).
    rewrite IH by assumption. f_equal. simpl. lia.
Qed.

Lemma search_from_hit (p : regex) (s : str) (i : nat) g e :
  rmatch p [] [] s i = Some (g, e) -> search_from p s i = Some g.
Proof. intros H. destruct s; simpl; now rewrite H. Qed.

End RegexFacts.

(** ** Dollar spans and [findall] *)

Section FindallFacts.

Lemma forallb_dot (x : str) : forallb (in_class Dot) x = true.
Proof. induction x; [reflexivity | assumption]. Qed.

Lemma findall_go_pass (p : regex) (r s : str) (i : nat) :
  findall_go p (length r) (r ++ s) i = findall_go p 0 s (i + length r).
Proof.
  revert i. induction r as [|a r IH]; intros i; simpl.
  - now rewrite Nat.add_0_r.
  - rewrite IH. f_equal. lia.
Qed.

Lemma rmatch_math_miss (c : char) (s : str) (i : nat) :
  (c =? dollar)%N = false -> rmatch math_re [] [] (c :: s) i = None.
Proof. intros H. simpl. unfold dollar in H. now rewrite H. Qed.

Lemma rmatch_math_hit (x t : str) (i : nat) :
  lacks dollar x = true ->
  rmatch math_re [] [] (dollar :: x ++ dollar :: t) i
  = Some (x, (i + length x + 2)%nat).
Proof.
  intros Hx.
  change (rmatch math_re [] [] (dollar :: x ++ dollar :: t) i) with
    (lazy_star (in_class Dot)
       (rmatch (Close :: chars [dollar] ++ []) (x ++ dollar :: t) [])
       (x ++ dollar :: t) (S i)).
  rewrite (lazy_star_skip _ _ [dollar]).
  - apply lazy_star_hit.
    change (rmatch (Close :: chars [dollar] ++ []) (x ++ dollar :: t) []
              (dollar :: t) (S i + length x))
      with (Some (firstn (length (x ++ dollar :: t) - length (dollar :: t))
                    (x ++ dollar :: t), S (S i + length x))).
    rewrite firstn_cap. do 2 f_equal. lia.
  - apply guarded_close.
  - now apply free_lacks.
  - apply forallb_dot.
Qed.

Lemma findall_go_gap (g s : str) (i : nat) :
  lacks dollar g = true ->
  findall_go math_re 0 (g ++ s) i = findall_go math_re 0 s (i + length g).
Proof.
  revert i. induction g as [|a g IH]; intros i H.
  - simpl. now rewrite Nat.add_0_r.
  - simpl in H. apply andb_true_iff in H as [Ha Hg]. apply negb_true_iff in Ha.
    change ((a :: g) ++ s) with (a :: (g ++ s)).
    change (findall_go math_re 0 (a :: g ++ s) i) with
      (match rmatch math_re [] [] (a :: g ++ s) i with
       | Some (x, e) => x :: findall_go math_re (e - i - 1) (g ++ s) (S i)
       | None => findall_go math_re 0 (g ++ s) (S i)
       end).
    rewrite rmatch_math_miss by exact Ha. rewrite IH by exact Hg.
    f_equal. simpl. lia.
Qed.

Lemma findall_go_span (x t : str) (i : nat) :
  lacks dollar x = true ->
  findall_go math_re 0 (dollar :: x ++ dollar :: t) i
  = x :: findall_go math_re 0 t (i + length x + 2).
Proof.
  intros Hx.
  change (findall_go math_re 0 (dollar :: x ++ dollar :: t) i) with
    (match rmatch math_re [] [] (dollar :: x ++ dollar :: t) i with
     | Some (g, e) =>
         g :: findall_go math_re (e - i - 1) (x ++ dollar :: t) (S i)
     | None => findall_go math_re 0 (x ++ dollar :: t) (S i)
     end).
  rewrite rmatch_math_hit by exact Hx. f_equal.
  replace (i + length x + 2 - i - 1)%nat with (length (x ++ [dollar]))
    by (rewrite length_app; simpl; lia).
  replace (x ++ dollar :: t) with ((x ++ [dollar]) ++ t)
    by (now rewrite <- app_assoc).
  rewrite findall_go_pass. f_equal. rewrite length_app. simpl. lia.
Qed.

Lemma findall_go_nodollar (g : str) (i : nat) :
  lacks dollar g = true -> findall_go math_re 0 g i = [].
Proof.
  intros H. rewrite <- (app_nil_r g). now rewrite findall_go_gap.
Qed.

Lemma findall_Spans (T : str) (xs : list str) :
  Spans T xs -> forall i, findall_go math_re 0 T i = xs.
Proof.
  induction 1 as [g Hg | g x t xs Hg Hx _ IH]; intros i.
  - now apply findall_go_nodollar.
  - rewrite findall_go_gap by exact Hg. rewrite findall_go_span by exact Hx.
    now rewrite IH.
Qed.

Lemma Spans_gap_app (g T : str) (xs : list str) :
  lacks dollar g = true -> Spans T xs -> Spans (g ++ T) xs.
Proof.
  intros Hg H. destruct H as [g' Hg' | g' x t xs Hg' Hx Ht].
  - apply Spans_gap. rewrite lacks_app. now rewrite Hg, Hg'.
  - rewrite app_assoc. apply Spans_cons; try assumption.
    rewrite lacks_app. now rewrite Hg, Hg'.
Qed.

Lemma Spans_app (T1 T2 : str) (xs ys : list str) :
  Spans T1 xs -> Spans T2 ys -> Spans (T1 ++ T2) (xs ++ ys).
Proof.
  induction 1 as [g Hg | g x t xs Hg Hx _ IH]; intros H2.
  - now apply Spans_gap_app.
  - replace ((g ++ dollar :: x ++ dollar :: t) ++ T2)
      with (g ++ dollar :: x ++ dollar :: (t ++ T2)).
    + apply Spans_cons; auto.
    + rewrite <- app_assoc. simpl. do 2 f_equal. rewrite <- app_assoc.
      reflexivity.
Qed.

Lemma lacks_rstrip (c : char) (g : str) :
  lacks c g = true -> lacks c (rstrip g) = true.
Proof.
  induction g as [|a g IH]; intros H; [reflexivity|].
  simpl in H. apply andb_true_iff in H as [Ha Hg]. simpl.
  specialize (IH Hg). destruct (rstrip g) as [|b r].
  - destruct (isspace a); [reflexivity|]. simpl. now rewrite Ha.
  - simpl. rewrite Ha. exact IH.
Qed.

Lemma Spans_rstrip (T : str) (xs : list str) :
  Spans T xs -> Spans (rstrip T) xs.
Proof.
  induction 1 as [g Hg | g x t xs Hg Hx Ht IH].
  - apply Spans_gap. now apply lacks_rstrip.
  - replace (rstrip (g ++ dollar :: x ++ dollar :: t))
      with (g ++ dollar :: x ++ dollar :: rstrip t).
    + now apply Spans_cons.
    + replace (g ++ dollar :: x ++ dollar :: t)
        with ((g ++ dollar :: x) ++ dollar :: t)
        by (now rewrite <- app_assoc).
      rewrite rstrip_app_nonspace by reflexivity.
      now rewrite <- app_assoc.
Qed.

End FindallFacts.

(** ** The array pattern *)

Section ArrayPattern.

Lemma startswith_inv (s p : str) :
  startswith s p = true -> exists z, s = p ++ z.
Proof.
  revert s. induction p as [|c p IH]; intros s H.
  - now exists s.
  - destruct s as [|x s]; [discriminate|]. simpl in H.
    apply andb_true_iff in H as [Hx Hs]. apply N.eqb_eq in Hx. subst x.
    destruct (IH _ Hs) as [z ->]. now exists z.
Qed.

Lemma startswith_prefix (a b p : str) :
  startswith (a ++ b) p = false -> startswith a p = false.
Proof.
  revert a. induction p as [|c p IH]; intros a H; [discriminate|].
  destruct a as [|x a]; [reflexivity|]. simpl in *.
  destruct (x =? c)%N; [|reflexivity]. simpl in *. now apply IH.
Qed.

Lemma endswith_app (a e : str) : endswith (a ++ e) e = true.
Proof. unfold endswith. rewrite rev_app_distr. apply startswith_app. Qed.

Lemma endswith_inv (s e : str) :
  endswith s e = true -> exists u, s = u ++ e.
Proof.
  unfold endswith. intros H. apply startswith_inv in H as [z Hz].
  exists (rev z). rewrite <- (rev_involutive s), Hz, rev_app_distr.
  now rewrite rev_involutive.
Qed.

Lemma lstrip_decomp (x : str) :
  exists w, x = w ++ lstrip x /\ allspace w = true.
Proof.
  induction x as [|a x (w & Hw & Hs)].
  - now exists [].
  - simpl. destruct (isspace a) eqn:Ha.
    + exists (a :: w). split; [simpl; now f_equal|]. simpl. now rewrite Ha.
    + now exists [].
Qed.

Lemma lstrip_head (x : str) :
  match lstrip x with [] => true | c :: _ => negb (isspace c) end = true.
Proof.
  induction x as [|a x IH]; [reflexivity|]. simpl.
  destruct (isspace a) eqn:Ha; [exact IH | now rewrite Ha].
Qed.

Lemma rstrip_decomp (x : str) :
  exists w, x = rstrip x ++ w /\ allspace w = true.
Proof.
  induction x as [|a x (w & Hw & Hs)].
  - now exists [].
  - simpl. destruct (rstrip x) as [|b r] eqn:E.
    + destruct (isspace a) eqn:Ha.
      * exists (a :: w). split; [simpl in *; now f_equal|]. simpl. now rewrite Ha.
      * exists w. split; [simpl in *; now f_equal | exact Hs].
    + exists w. split; [|exact Hs]. simpl. f_equal. exact Hw.
Qed.

Lemma rstrip_idem (x : str) : rstrip (rstrip x) = rstrip x.
Proof.
  induction x as [|a x IH]; [reflexivity|]. simpl.
  destruct (rstrip x) as [|b r] eqn:E.
  - destruct (isspace a) eqn:Ha; [reflexivity|]. simpl. now rewrite Ha.
  - change (rstrip (a :: b :: r)) with
      (match rstrip (b :: r) with
       | [] => if isspace a then [] else [a]
       | q => a :: q
       end).
    now rewrite IH.
Qed.

Lemma rstrip_lstripped (y : str) :
  match y with [] => true | c :: _ => negb (isspace c) end = true ->
  lstrip (rstrip y) = rstrip y.
Proof.
  destruct y as [|c y]; intros H; [reflexivity|]. apply negb_true_iff in H.
  simpl. destruct (rstrip y); rewrite ?H; simpl; now rewrite H.
Qed.

Lemma strip_idem (x : str) : strip (strip x) = strip x.
Proof.
  unfold strip. rewrite (rstrip_lstripped _ (lstrip_head x)).
  apply rstrip_idem.
Qed.

Lemma space_not (c d : char) :
  isspace c = true -> isspace d = false -> (c =? d)%N = false.
Proof.
  intros Hc Hd. destruct (N.eqb_spec c d); [congruence | reflexivity].
Qed.

Lemma search_from_bol (p : regex) (s : str) (i : nat) :
  (0 < i)%nat -> search_from (Bol :: p) s i = None.
Proof.
  revert i. induction s as [|a s IH]; intros i Hi; simpl;
    (destruct (Nat.eqb_spec i 0); [lia|]); [reflexivity | apply IH; lia].
Qed.

Lemma search_bol (p : regex) (s : str) :
  search (Bol :: p) s
  = match rmatch p [] [] s 0 with Some (g, _) => Some g | None => None end.
Proof.
  unfold search. destruct s as [|a s]; simpl.
  - now destruct (rmatch p [] [] [] 0) as [[g e]|].
  - destruct (rmatch p [] [] (a :: s) 0) as [[g e]|]; [reflexivity|].
    apply search_from_bol. lia.
Qed.

(** The tail of the array pattern, after the closing literal. *)
Lemma greedy_eol_all (cap grp w : str) (i : nat) :
  allspace w = true ->
  greedy_star (in_class Space) (rmatch [Eol] cap grp) w i
  = Some (grp, (i + length w)%nat).
Proof.
  intros H. rewrite <- (app_nil_r w) at 1.
  apply greedy_star_run; [exact H | reflexivity | reflexivity].
Qed.

Lemma greedy_eol_none (cap grp w : str) (i : nat) :
  allspace w = false ->
  greedy_star (in_class Space) (rmatch [Eol] cap grp) w i = None.
Proof.
  revert i. induction w as [|a w IH]; intros i H; [discriminate|].
  rewrite greedy_star_cons. simpl in H. simpl in_class.
  destruct (isspace a) eqn:Ha.
  - simpl in H. rewrite (IH _ H). simpl. destruct w; [discriminate | reflexivity].
  - simpl. destruct w; [|reflexivity].
    destruct (N.eqb_spec a NL); [subst; discriminate | reflexivity].
Qed.

Lemma k_end_hit (cap w : str) (i : nat) :
  k_end cap (E_array ++ w) i
  = if allspace w
    then Some (firstn (length cap - length w) cap,
               (i + length E_array + length w)%nat)
    else None.
Proof.
  unfold k_end. rewrite rmatch_chars_hit.
  change (rmatch [Close; Greedy Space; Eol] cap [] w (i + length E_array))
    with (greedy_star (in_class Space)
            (rmatch [Eol] cap (firstn (length cap - length w) cap))
            w (i + length E_array)).
  destruct (allspace w) eqn:Hw.
  - now apply greedy_eol_all.
  - now apply greedy_eol_none.
Qed.

Lemma k_end_some (cap t : str) (i : nat) r :
  k_end cap t i = Some r ->
  exists w, t = E_array ++ w /\ allspace w = true
            /\ fst r = firstn (length cap - length w) cap.
Proof.
  intros H. destruct (startswith t E_array) eqn:Hs.
  - apply startswith_inv in Hs as [w ->]. rewrite k_end_hit in H.
    destruct (allspace w) eqn:Hw; [|discriminate]. injection H as <-.
    exists w. now repeat split.
  - unfold k_end in H. now rewrite rmatch_chars_miss in H.
Qed.

Lemma lazy_star_none cl k (a t : str) (i : nat) :
  forallb cl a = true ->
  lazy_star cl k (a ++ t) i = None -> k t (i + length a) = None.
Proof.
  revert i. induction a as [|c a IH]; intros i Ha H.
  - simpl in *. rewrite Nat.add_0_r.
    destruct t; simpl in H; destruct (k _ i); congruence.
  - simpl in Ha. apply andb_true_iff in Ha as [Hc Ha].
    change ((c :: a) ++ t) with (c :: (a ++ t)) in H.
    rewrite lazy_star_cons in H. destruct (k (c :: a ++ t) i); [discriminate|].
    rewrite Hc in H. apply IH in H; [|exact Ha].
    simpl. now rewrite <- Nat.add_succ_comm.
Qed.

Lemma array_rmatch_unfold (x : str) :
  rmatch array_re [] [] x 0
  = greedy_star (in_class Space)
      (rmatch (Open :: chars B_array ++ Lazy Dot
                 :: chars E_array ++ [Close; Greedy Space; Eol]) [] [])
      x 0.
Proof. reflexivity. Qed.

Lemma array_after_space (y : str) (j : nat) :
  rmatch (Open :: chars B_array ++ Lazy Dot
            :: chars E_array ++ [Close; Greedy Space; Eol]) [] [] y j
  = if startswith y B_array
    then lazy_star (in_class Dot) (k_end y)
           (skipn (length B_array) y) (j + length B_array)
    else None.
Proof.
  change (rmatch (Open :: chars B_array ++ Lazy Dot
            :: chars E_array ++ [Close; Greedy Space; Eol]) [] [] y j)
    with (rmatch (chars B_array ++ Lazy Dot
            :: chars E_array ++ [Close; Greedy Space; Eol]) y [] y j).
  destruct (startswith y B_array) eqn:Hs.
  - destruct (startswith_inv _ _ Hs) as [z Hz]. subst y.
    rewrite rmatch_chars_hit.
    rewrite skipn_app, Nat.sub_diag, skipn_all. reflexivity.
  - now apply rmatch_chars_miss.
Qed.

Lemma array_rmatch_lstrip (x : str) :
  exists j,
    rmatch array_re [] [] x 0
    = if startswith (lstrip x) B_array
      then lazy_star (in_class Dot) (k_end (lstrip x))
             (skipn (length B_array) (lstrip x)) j
      else None.
Proof.
  destruct (lstrip_decomp x) as (w & Hx & Hw).
  exists (0 + length w + length B_array)%nat.
  rewrite array_rmatch_unfold. rewrite Hx at 1.
  rewrite greedy_star_run_only.
  - apply array_after_space.
  - exact Hw.
  - apply lstrip_head.
  - intros c t j Hc. rewrite array_after_space.
    change (startswith (c :: t) B_array) with
      ((c =? 92)%N && startswith t (tl B_array)).
    now rewrite (space_not c 92%N Hc).
Qed.

Lemma array_shape_span (x a w : str) :
  lstrip x = B_array ++ a ++ E_array ++ w -> allspace w = true ->
  strip x = B_array ++ a ++ E_array /\ is_array_span x = true.
Proof.
  intros Hy Hw.
  assert (Hs : strip x = B_array ++ a ++ E_array).
  { unfold strip. rewrite Hy.
    replace (B_array ++ a ++ E_array ++ w)
      with ((B_array ++ a ++ E_array) ++ w)
      by (now rewrite <- !app_assoc).
    rewrite rstrip_app_allspace by exact Hw.
    change E_array with (lit "\end{array" ++ [125%N]).
    rewrite !app_assoc. now apply rstrip_app_nonspace. }
  split; [exact Hs|]. unfold is_array_span. rewrite Hs.
  rewrite startswith_app. rewrite app_assoc, endswith_app.
  cbn [andb]. apply Nat.leb_le. rewrite !length_app.
  change (length B_array) with 13%nat. change (length E_array) with 11%nat. lia.
Qed.

Theorem array_search_spec (x : str) :
  search array_re x = if is_array_span x then Some (strip x) else None.
Proof.
  change array_re with (Bol :: tl array_re). rewrite search_bol.
  change (rmatch (tl array_re) [] [] x 0) with (rmatch array_re [] [] x 0).
  destruct (array_rmatch_lstrip x) as [j ->].
  destruct (startswith (lstrip x) B_array) eqn:Hs.
  - destruct (startswith_inv _ _ Hs) as [z Hz].
    rewrite Hz at 2. rewrite skipn_app, Nat.sub_diag, skipn_all. simpl app.
    destruct (lazy_star (in_class Dot) (k_end (lstrip x)) z j) as [[g e]|] eqn:El.
    + apply lazy_star_some_inv in El as (a & t & -> & Ht).
      apply k_end_some in Ht as (w & -> & Hw & Hg). simpl in Hg.
      destruct (array_shape_span x a w Hz Hw) as [Hstrip ->].
      rewrite Hstrip, Hg, Hz.
      replace (B_array ++ a ++ E_array ++ w)
        with ((B_array ++ a ++ E_array) ++ w)
        by (now rewrite <- !app_assoc).
      now rewrite firstn_cap.
    + destruct (is_array_span x) eqn:Hspan; [exfalso | reflexivity].
      unfold is_array_span in Hspan.
      apply andb_true_iff in Hspan as [Hspan Hlen].
      apply andb_true_iff in Hspan as [Hb He]. apply Nat.leb_le in Hlen.
      apply startswith_inv in Hb as [z' Hz'].
      apply endswith_inv in He as [u Hu].
      assert (Hsplit : exists a, z' = a ++ E_array).
      { rewrite Hu in Hlen. rewrite Hz' in Hu. rewrite length_app in Hlen.
        change (length E_array) with 11%nat in Hlen.
        apply app_eq_app in Hu as [l [[H1 H2]|[H1 H2]]].
        - assert (l = []) as ->.
          { apply (f_equal (@length _)) in H1. rewrite length_app in H1.
            change (length B_array) with 13%nat in H1.
            destruct l; [reflexivity | simpl in H1; lia]. }
          exists []. simpl in H2. now rewrite <- H2.
        - exists l. exact H2. }
      destruct Hsplit as [a ->].
      destruct (rstrip_decomp (lstrip x)) as (w & Hw & Hws).
      fold (strip x) in Hw. rewrite Hz' in Hw. rewrite Hz in Hw.
      rewrite <- !app_assoc in Hw. apply app_inv_head in Hw. subst z.
      apply lazy_star_none in El; [|apply forallb_dot].
      rewrite k_end_hit, Hws in El. discriminate.
  - destruct (is_array_span x) eqn:Hspan; [exfalso | reflexivity].
    unfold is_array_span in Hspan.
    apply andb_true_iff in Hspan as [Hspan _].
    apply andb_true_iff in Hspan as [Hb _].
    destruct (rstrip_decomp (lstrip x)) as (w & Hw & _).
    fold (strip x) in Hw. rewrite Hw in Hs.
    apply startswith_prefix in Hs. congruence.
Qed.

Lemma math_blocks_fold (xs : list str) (acc : list str) :
  fold_left
    (fun math_blocks raw_expr =>
       match search array_re raw_expr with
       | Some g => math_blocks ++ [strip g]
       | None => math_blocks
       end) xs acc
  = acc ++ map strip (filter is_array_span xs).
Proof.
  revert acc. induction xs as [|x xs IH]; intros acc; simpl.
  - now rewrite app_nil_r.
  - rewrite IH, array_search_spec. destruct (is_array_span x); [|reflexivity].
    simpl. rewrite strip_idem. now rewrite <- app_assoc.
Qed.

(** The extraction on a text whose narrowed interior is a sequence of
    dollar spans: the trimmed spans that pass the filter, in order. *)
Lemma math_blocks_Spans (D : str) (xs : list str) :
  Spans (narrow D) xs ->
  math_blocks D = map strip (filter is_array_span xs).
Proof.
  intros H. unfold math_blocks, findall.
  rewrite (findall_Spans _ _ H). apply math_blocks_fold.
Qed.

End ArrayPattern.

(** ** The two narrowing steps *)

Section Narrowing.

Lemma rstrip_tail (a : char) (t : str) :
  rstrip (a :: t) = a :: t -> rstrip t = t.
Proof.
  simpl. destruct (rstrip t) as [|b r] eqn:E.
  - destruct (isspace a); [discriminate|]. intros H. now injection H as <-.
  - intros H. now injection H.
Qed.

Lemma rstrip_fixed_head (a : char) (t : str) :
  rstrip (a :: t) = a :: t -> isspace a = true -> t <> [].
Proof.
  simpl. intros H Ha ->. simpl in H. rewrite Ha in H. discriminate.
Qed.

(** Inside a right-trimmed text free of [l], the tail [\s*l] never
    matches. *)
Lemma tight_fail (l : str) (p : regex) (cap grp t w rest : str) (j : nat) :
  rstrip t = t -> t <> [] -> free l (t ++ w) = true ->
  greedy_star (in_class Space) (rmatch (chars l ++ p) cap grp)
    ((t ++ w) ++ rest) j = None.
Proof.
  revert j. induction t as [|a t IH]; intros j Hr Hne Hf; [contradiction|].
  change ((a :: t) ++ w) with (a :: (t ++ w)) in *.
  rewrite free_cons in Hf. apply andb_true_iff in Hf as [Ha Hf].
  apply negb_true_iff in Ha.
  pose proof (guarded_chars l p cap grp _ rest j Ha) as G.
  change ((a :: t ++ w) ++ rest) with (a :: ((t ++ w) ++ rest)) in *.
  rewrite greedy_star_cons. simpl in_class.
  destruct (isspace a) eqn:Hs; [|exact G].
  rewrite IH; [exact G | now apply rstrip_tail with a
              | now apply rstrip_fixed_head with a | exact Hf].
Qed.

Lemma lazy_skip_tight (l : str) (cap grp x w rest : str) (i : nat) :
  rstrip x = x -> free l (x ++ w) = true ->
  lazy_star (in_class Dot)
    (rmatch (Close :: Greedy Space :: chars l ++ []) cap grp)
    ((x ++ w) ++ rest) i
  = lazy_star (in_class Dot)
      (rmatch (Close :: Greedy Space :: chars l ++ []) cap grp)
      (w ++ rest) (i + length x).
Proof.
  revert i. induction x as [|a x IH]; intros i Hr Hf.
  - simpl. now rewrite Nat.add_0_r.
  - change (((a :: x) ++ w) ++ rest) with (a :: ((x ++ w) ++ rest)).
    rewrite lazy_star_cons.
    change (rmatch (Close :: Greedy Space :: chars l ++ []) cap grp
              (a :: (x ++ w) ++ rest) i)
      with (greedy_star (in_class Space)
              (rmatch (chars l ++ []) cap
                 (firstn (length cap - length (a :: (x ++ w) ++ rest)) cap))
              (((a :: x) ++ w) ++ rest) i).
    rewrite tight_fail by (assumption || discriminate).
    simpl in_class. rewrite IH.
    + f_equal. simpl. lia.
    + now apply rstrip_tail with a.
    + change ((a :: x) ++ w) with (a :: (x ++ w)) in Hf.
      rewrite free_cons in Hf. now apply andb_true_iff in Hf as [_ Hf].
Qed.

(** [(.*?)\s*l] at the end of a pattern: the group is the text before the
    first [l], right-trimmed. *)
Lemma lazy_until_space_lit (c : char) (l grp X s : str) (i : nat) :
  isspace c = false -> free (c :: l) X = true ->
  lazy_star (in_class Dot)
    (rmatch (Close :: Greedy Space :: chars (c :: l))
       (X ++ (c :: l) ++ s) grp)
    (X ++ (c :: l) ++ s) i
  = Some (rstrip X, (i + length X + length (c :: l))%nat).
Proof.
  intros Hc Hf. rewrite <- (app_nil_r (chars (c :: l))).
  destruct (rstrip_decomp X) as (w & HX & Hw).
  pose proof (rstrip_idem X) as Hx.
  remember (rstrip X) as x eqn:Ex. clear Ex. subst X.
  rewrite (lazy_skip_tight (c :: l) ((x ++ w) ++ (c :: l) ++ s) grp x w
             ((c :: l) ++ s) i Hx Hf).
  apply lazy_star_hit.
  change (rmatch (Close :: Greedy Space :: chars (c :: l) ++ [])
            ((x ++ w) ++ (c :: l) ++ s) grp
            (w ++ (c :: l) ++ s) (i + length x))
    with (greedy_star (in_class Space)
            (rmatch (chars (c :: l) ++ []) ((x ++ w) ++ (c :: l) ++ s)
               (firstn (length ((x ++ w) ++ (c :: l) ++ s)
                        - length (w ++ (c :: l) ++ s))
                  ((x ++ w) ++ (c :: l) ++ s)))
            (w ++ (c :: l) ++ s) (i + length x)).
  apply greedy_star_run.
  - exact Hw.
  - simpl. now rewrite Hc.
  - rewrite rmatch_chars_hit. simpl rmatch.
    rewrite <- app_assoc. rewrite firstn_cap.
    rewrite (length_app x w). do 2 f_equal. simpl. lia.
Qed.

(** [(.*?)l] at the end of a pattern: the group is the text before the
    first [l]. *)
Lemma lazy_until_lit (l grp C s : str) (i : nat) :
  free l C = true ->
  lazy_star (in_class Dot)
    (rmatch (Close :: chars l) (C ++ l ++ s) grp) (C ++ l ++ s) i
  = Some (C, (i + length C + length l)%nat).
Proof.
  intros Hf. rewrite <- (app_nil_r (chars l)).
  rewrite (lazy_star_skip _ _ l).
  - apply lazy_star_hit. simpl rmatch at 1. rewrite rmatch_chars_hit.
    simpl rmatch. now rewrite firstn_cap.
  - apply guarded_close.
  - exact Hf.
  - apply forallb_dot.
Qed.

Lemma search_none_free (l : str) (p : regex) (T : str) :
  l <> [] -> free l T = true -> search (chars l ++ p) T = None.
Proof. intros. now apply search_from_free_none. Qed.

(** A text in which neither environment begins is left as it is. *)
Lemma narrow_plain (T : str) :
  free (lit "\begin{document}") T = true ->
  free (lit "\begin{tabular}") T = true ->
  narrow T = T.
Proof.
  intros Hd Ht. unfold narrow.
  unfold document_re. rewrite search_none_free; [|discriminate|exact Hd].
  unfold tabular_re. rewrite search_none_free; [|discriminate|exact Ht].
  reflexivity.
Qed.

Lemma lacks_cons (c a : char) (x : str) :
  lacks c (a :: x) = negb (a =? c)%N && lacks c x.
Proof. reflexivity. Qed.

Lemma lacks_str_of_int (c : char) (n : Z) :
  ((48 <=? c) && (c <=? 57) || (c =? 45))%N = false ->
  lacks c (str_of_int n) = true.
Proof.
  intros Hc.
  assert (Hne : forall a : char,
             ((48 <=? a) && (a <=? 57) || (a =? 45))%N = true ->
             negb (a =? c)%N = true).
  { intros a Ha. apply negb_true_iff, N.eqb_neq. intros <-. congruence. }
  assert (Hd : forall d, lacks c (uint_chars d) = true).
  { induction d; cbn [uint_chars]; try reflexivity;
      rewrite lacks_cons, IHd, andb_true_r; now apply Hne. }
  destruct n as [|q|q]; cbn [str_of_int].
  - rewrite lacks_cons, andb_true_r. now apply Hne.
  - apply Hd.
  - rewrite lacks_cons, Hd, andb_true_r. now apply Hne.
Qed.

Lemma header_shape (c : Z) :
  header c
  = (lit "\documentclass{article}" ++ [NL]
     ++ lit "\usepackage{amsmath} % Required for the align environment, etc."
     ++ [NL] ++ lit "\usepackage{geometry} % For page margins" ++ [NL]
     ++ lit "\geometry{a4paper, margin=1in} % Set margins" ++ [NL] ++ [NL])
    ++ lit "\begin{document}"
    ++ ([NL] ++ lit "\centering" ++ [NL] ++ [NL])
    ++ lit "\begin{tabular}"
    ++ 123%N :: (lit "*{" ++ str_of_int c)
    ++ 125%N :: lit "{c}}" ++ [NL].
Proof.
  unfold header. rewrite <- !app_assoc. reflexivity.
Qed.

Lemma rmatch_char_hit (c : char) (p : regex) (cap grp s : str) (i : nat) :
  rmatch (Char c :: p) cap grp (c :: s) i = rmatch p cap grp s (S i).
Proof. simpl. now rewrite N.eqb_refl. Qed.

Lemma rmatch_open_lazy (p : regex) (cap grp s : str) (i : nat) :
  rmatch (Open :: Lazy Dot :: p) cap grp s i
  = lazy_star (in_class Dot) (rmatch p s grp) s i.
Proof. reflexivity. Qed.

Lemma document_search (P C rest : str) :
  free (lit "\begin{document}") P = true ->
  free (lit "\end{document}") C = true ->
  search document_re
    (P ++ lit "\begin{document}" ++ C ++ lit "\end{document}" ++ rest)
  = Some C.
Proof.
  intros HP HC. unfold search, document_re.
  rewrite search_from_skip by exact HP.
  eapply search_from_hit. rewrite rmatch_chars_hit. cbn [app].
  rewrite rmatch_open_lazy. now rewrite lazy_until_lit.
Qed.

Lemma tabular_search (P mid Y rest : str) (a : char) :
  free (lit "\begin{tabular}") P = true ->
  lacks 125%N mid = true ->
  isspace a = false ->
  free (lit "\end{tabular}") (a :: Y) = true ->
  search tabular_re
    (P ++ lit "\begin{tabular}"
       ++ 123%N :: mid ++ 125%N :: (a :: Y) ++ lit "\end{tabular}" ++ rest)
  = Some (rstrip (a :: Y)).
Proof.
  intros HP Hmid Ha HY. unfold search, tabular_re.
  rewrite search_from_skip by exact HP.
  eapply search_from_hit.
  rewrite rmatch_chars_hit. cbn [app]. rewrite rmatch_char_hit.
  change (rmatch (Lazy Dot :: Char 125%N :: ?p) [] [] ?s ?i)
    with (lazy_star (in_class Dot) (rmatch (chars [125%N] ++ p) [] []) s i).
  rewrite (lazy_star_skip _ _ [125%N]);
    [| apply guarded_chars | now apply free_lacks | apply forallb_dot].
  apply lazy_star_hit. cbn [chars map app]. rewrite rmatch_char_hit.
  change (rmatch (Greedy Space :: ?p) [] [] ?s ?i)
    with (greedy_star (in_class Space) (rmatch p [] []) s i).
  rewrite greedy_star_stop by (simpl; now rewrite Ha).
  rewrite rmatch_open_lazy.
  exact (lazy_until_space_lit 92%N (lit "end{tabular}") [] (a :: Y) rest _
           eq_refl HY).
Qed.

Lemma narrow_document (c : Z) (X : str) :
  free (lit "\end{document}") X = true ->
  free (lit "\end{tabular}") X = true ->
  narrow (header c ++ X ++ footer) = rstrip (lit "{c}}" ++ [NL] ++ X).
Proof.
  intros Hd Ht. unfold narrow.
  set (C := ([NL] ++ lit "\centering" ++ [NL] ++ [NL])
            ++ lit "\begin{tabular}"
            ++ 123%N :: (lit "*{" ++ str_of_int c)
            ++ 125%N :: (lit "{c}}" ++ [NL] ++ X)
            ++ lit "\end{tabular}" ++ [NL; NL]).
  assert (HE : header c ++ X ++ footer
               = (lit "\documentclass{article}" ++ [NL]
     ++ lit "\usepackage{amsmath} % Required for the align environment, etc."
     ++ [NL] ++ lit "\usepackage{geometry} % For page margins" ++ [NL]
     ++ lit "\geometry{a4paper, margin=1in} % Set margins" ++ [NL] ++ [NL])
                 ++ lit "\begin{document}" ++ C ++ lit "\end{document}" ++ []).
  { rewrite header_shape. unfold C, footer. norm_app. reflexivity. }
  assert (HT : search tabular_re C
               = Some (rstrip (lit "{c}}" ++ [NL] ++ X))).
  { apply (tabular_search ([NL] ++ lit "\centering" ++ [NL] ++ [NL])
             (lit "*{" ++ str_of_int c) (lit "c}}" ++ [NL] ++ X) [NL; NL]
             123%N).
    - reflexivity.
    - rewrite lacks_app. now rewrite lacks_str_of_int.
    - reflexivity.
    - apply (free_app _ (lit "{c}}" ++ [NL]) X); [reflexivity | exact Ht]. }
  rewrite HE. rewrite document_search.
  - now rewrite HT.
  - reflexivity.
  - unfold C.
    apply free_app; [reflexivity|].
    apply (free_app _ (lit "\begin{tabular}{*{")); [reflexivity|].
    apply free_app; [apply free_lacks; now apply lacks_str_of_int|].
    apply (free_app _ (lit "}{c}}" ++ [NL])); [reflexivity|].
    apply free_app; [exact Hd | reflexivity].
Qed.

End Narrowing.

(** ** Serialization *)

Section Serialization.

Local Open Scope Z_scope.

Lemma getitem_nat {A} (l : list A) (k : nat) (x : A) :
  nth_error l k = Some x -> getitem l (Z.of_nat k) = Ok x.
Proof.
  intros H. unfold getitem. cbv zeta.
  assert (Hk : (k < length l)%nat).
  { apply (proj1 (nth_error_Some l k)). rewrite H. discriminate. }
  assert (E1 : (Z.of_nat k <? 0) = false) by (apply Z.ltb_ge; lia).
  assert (E2 : (Z.of_nat (length l) <=? Z.of_nat k) = false)
    by (apply Z.leb_gt; lia).
  rewrite E1. cbv iota. rewrite E1, E2. cbn [orb].
  now rewrite Nat2Z.id, H.
Qed.

Lemma getitem_last {A} (l : list A) (x : A) :
  getitem (l ++ [x]) (-1) = Ok x.
Proof.
  unfold getitem. cbv zeta. rewrite length_app. cbn [length].
  change (-1 <? 0) with true. cbv iota.
  assert (E1 : (-1 + Z.of_nat (length l + 1) <? 0) = false)
    by (apply Z.ltb_ge; lia).
  assert (E2 : (Z.of_nat (length l + 1) <=? -1 + Z.of_nat (length l + 1))
               = false) by (apply Z.leb_gt; lia).
  rewrite E1, E2. cbn [orb].
  replace (Z.to_nat (-1 + Z.of_nat (length l + 1))) with (length l) by lia.
  rewrite nth_error_app2 by lia. now rewrite Nat.sub_diag.
Qed.

Lemma getitem_nil {A} (i : Z) : getitem (@nil A) i = Raise IndexError.
Proof.
  unfold getitem. cbv zeta. cbn [length]. change (Z.of_nat 0) with 0.
  destruct (i <? 0) eqn:E.
  - rewrite Z.add_0_r, E. reflexivity.
  - rewrite E. cbn [orb]. apply Z.ltb_ge in E.
    assert (E2 : (0 <=? i) = true) by (apply Z.leb_le; lia).
    now rewrite E2.
Qed.

Lemma range_len {A} (l : list A) : range (len l) = map Z.of_nat (seq 0 (length l)).
Proof. unfold range, len. now rewrite Nat2Z.id. Qed.

(** The loop that fills [latex_parts]. *)
Lemma parts_loop (f : Z -> list char) (pre init rest : list Z)
  (acc : list (list char)) :
  rfor_each (map Z.of_nat (seq (length pre) (length init)))
    (fun i (latex_parts : list (list char)) =>
       x <-? getitem (pre ++ init ++ rest) i ;; Ok (latex_parts ++ [f x]))
    acc
  = Ok (acc ++ map f init).
Proof.
  revert pre acc. induction init as [|x init IH]; intros pre acc.
  - simpl. now rewrite app_nil_r.
  - simpl seq. simpl map. simpl rfor_each.
    rewrite (getitem_nat _ (length pre) x).
    + simpl rbind.
      specialize (IH (pre ++ [x]) (acc ++ [f x])).
      rewrite length_app in IH. simpl length in IH.
      rewrite Nat.add_1_r in IH. rewrite <- app_assoc in IH. simpl app in IH.
      rewrite IH. now rewrite <- app_assoc.
    + rewrite nth_error_app2 by lia. now rewrite Nat.sub_diag.
Qed.

Lemma join_cons_cons (sep p q : str) (l : list str) :
  join sep (p :: q :: l) = p ++ sep ++ join sep (q :: l).
Proof. reflexivity. Qed.

Lemma join_snoc (sep : str) (parts : list str) (final : str) :
  join sep (parts ++ [final])
  = concat (map (fun p => p ++ sep) parts) ++ final.
Proof.
  induction parts as [|p parts IH]; [reflexivity|].
  destruct parts as [|q parts].
  - simpl. now rewrite app_nil_r, <- app_assoc.
  - change ((p :: q :: parts) ++ [final])
      with (p :: q :: (parts ++ [final])).
    rewrite join_cons_cons.
    change (q :: parts ++ [final]) with ((q :: parts) ++ [final]).
    rewrite IH. cbn [map concat]. now rewrite <- !app_assoc.
Qed.

Theorem serialize_shape (init : list Z) (last : Z) (ops : list str) (op : str) :
  serialize (Problem (len (init ++ [last])) (init ++ [last]) (ops ++ [op]))
  = Ok (block_text init op last).
Proof.
  unfold serialize. cbn [n_numbers numbers operators].
  replace (len (init ++ [last]) - 1) with (len init)
    by (unfold len; rewrite length_app; simpl; lia).
  rewrite range_len.
  pose proof (parts_loop (fun x => lit " " ++ str_of_int x ++ lit " ")
                [] init [last] []) as HL.
  cbn [length app] in HL. rewrite HL. clear HL.
  cbn [rbind]. rewrite getitem_last. cbn [rbind].
  replace (len init) with (Z.of_nat (length init)) by reflexivity.
  rewrite (getitem_nat (init ++ [last]) (length init) last)
    by (rewrite nth_error_app2 by lia; now rewrite Nat.sub_diag).
  cbn [rbind]. f_equal. cbn [app]. rewrite join_snoc. rewrite map_map.
  unfold block_text, array_text, body, line_end.
  rewrite (map_ext
             (fun x => (lit " " ++ str_of_int x ++ lit " ")
                       ++ lit " \\" ++ [NL])
             (fun x => 32%N :: str_of_int x ++ lit "  \\" ++ [NL])).
  - norm_app. reflexivity.
  - intros x. norm_app. reflexivity.
Qed.

Lemma serialize_ok_inv (p : problem) (s : str) :
  n_numbers p = len (numbers p) -> serialize p = Ok s ->
  exists init last ops op,
    numbers p = init ++ [last] /\ operators p = ops ++ [op]
    /\ s = block_text init op last.
Proof.
  destruct p as [n ns os]. cbn [n_numbers numbers operators].
  intros -> H.
  destruct (exists_last (l := ns)) as (init & last & ->).
  - intros ->. unfold serialize in H. cbn in H.
    destruct (getitem os (-1)); cbn in H; discriminate.
  - destruct os as [|o os'] using rev_ind.
    + unfold serialize in H. cbn [n_numbers numbers operators] in H.
      destruct (rfor_each _ _ _); cbn in H; discriminate.
    + rewrite serialize_shape in H. injection H as <-.
      now exists init, last, os', o.
Qed.

End Serialization.

(** ** Serialized blocks *)

Section Blocks.

Lemma str_eqb_eq (a b : str) : str_eqb a b = true -> a = b.
Proof. unfold str_eqb. now destruct (list_eq_dec N.eq_dec a b). Qed.

Lemma is_sign_cases (op : str) :
  is_sign op = true -> op = [43%N] \/ op = [45%N].
Proof.
  unfold is_sign. intros H. apply orb_true_iff in H as [H|H];
    apply str_eqb_eq in H; subst; [now left | now right].
Qed.

Lemma lacks_concat_map {A} (c : char) (f : A -> str) (l : list A) :
  (forall a, lacks c (f a) = true) -> lacks c (concat (map f l)) = true.
Proof.
  intros H. induction l as [|a l IH]; [reflexivity|].
  simpl. rewrite lacks_app. now rewrite H, IH.
Qed.

Lemma lacks_op (c : char) (op : str) :
  is_sign op = true -> (c =? 43)%N = false -> (c =? 45)%N = false ->
  lacks c op = true.
Proof.
  intros H H1 H2. rewrite N.eqb_sym in H1. rewrite N.eqb_sym in H2.
  destruct (is_sign_cases op H) as [-> | ->]; rewrite lacks_cons;
    [rewrite H1 | rewrite H2]; reflexivity.
Qed.

Lemma lacks_fixed (c : char) :
  lacks c fixed_parts = true ->
  lacks c (lit "\begin{array}{r}") = true /\ negb (NL =? c)%N = true
  /\ negb (32 =? c)%N = true /\ lacks c line_end = true
  /\ lacks c (lit " \hline ") = true /\ lacks c (lit "\end{array}") = true.
Proof.
  unfold fixed_parts. rewrite lacks_app, !lacks_cons, !lacks_app.
  intros H. apply andb_true_iff in H as [H1 H].
  apply andb_true_iff in H as [H2 H]. apply andb_true_iff in H as [H3 H].
  apply andb_true_iff in H as [H4 H]. apply andb_true_iff in H as [H5 H6].
  tauto.
Qed.

(** A character outside the alphabet of the blocks does not occur in the
    body, nor in the array environment. *)
Lemma lacks_body (c : char) (init : list Z) (op : str) (last : Z) :
  is_sign op = true ->
  ((48 <=? c) && (c <=? 57) || (c =? 45))%N = false ->
  (c =? 43)%N = false ->
  lacks c fixed_parts = true ->
  lacks c (body init op last) = true.
Proof.
  intros Hop Hd Hp Hl.
  destruct (lacks_fixed c Hl) as (H1 & H2 & H3 & H4 & H5 & H6).
  assert (Hm : (c =? 45)%N = false).
  { apply orb_false_iff in Hd. tauto. }
  unfold body. rewrite lacks_app, lacks_cons, !lacks_app.
  rewrite lacks_concat_map.
  - rewrite H3, (lacks_op c op Hop Hp Hm), (lacks_str_of_int c last Hd),
      H4, H5. reflexivity.
  - intros x. rewrite lacks_cons, lacks_app.
    now rewrite H3, (lacks_str_of_int c x Hd), H4.
Qed.

Lemma lacks_array_text (c : char) (init : list Z) (op : str) (last : Z) :
  is_sign op = true ->
  ((48 <=? c) && (c <=? 57) || (c =? 45))%N = false ->
  (c =? 43)%N = false ->
  lacks c fixed_parts = true ->
  lacks c (array_text init op last) = true.
Proof.
  intros Hop Hd Hp Hl.
  destruct (lacks_fixed c Hl) as (H1 & H2 & _ & _ & _ & H6).
  unfold array_text. rewrite lacks_app, lacks_cons, lacks_app, lacks_cons.
  now rewrite H1, H2, (lacks_body c init op last Hop Hd Hp Hl), H6.
Qed.

(** No occurrence of a literal that starts with a backslash begins in the
    body, as soon as none begins in its two fixed parts. *)
Lemma free_body (l : str) (init : list Z) (op : str) (last : Z) :
  is_sign op = true ->
  free (92%N :: l) line_end = true ->
  free (92%N :: l) (lit " \hline ") = true ->
  free (92%N :: l) (body init op last) = true.
Proof.
  intros Hop He Hh.
  assert (Hnum : forall x, free (92%N :: l) (32%N :: str_of_int x) = true).
  { intros x. apply free_lacks. rewrite lacks_cons.
    now rewrite lacks_str_of_int. }
  unfold body. apply free_app.
  - apply free_concat_map. intros x _.
    apply (free_app _ (32%N :: str_of_int x) line_end); [apply Hnum | exact He].
  - apply (free_app _ [32%N]); [reflexivity|].
    apply free_app; [apply free_lacks; now apply lacks_op|].
    apply free_app; [apply free_lacks; now apply lacks_str_of_int|].
    now apply free_app.
Qed.

Lemma free_block (l : str) (init : list Z) (op : str) (last : Z) :
  is_sign op = true ->
  free (92%N :: l) (dollar :: 32%N :: lit "\begin{array}{r}" ++ [NL]) = true ->
  free (92%N :: l) line_end = true ->
  free (92%N :: l) (lit " \hline ") = true ->
  free (92%N :: l) (NL :: lit "\end{array}" ++ [32%N; dollar]) = true ->
  free (92%N :: l) (block_text init op last) = true.
Proof.
  intros Hop H1 H2 H3 H4.
  replace (block_text init op last)
    with ((dollar :: 32%N :: lit "\begin{array}{r}" ++ [NL])
          ++ body init op last
          ++ NL :: lit "\end{array}" ++ [32%N; dollar])
    by (unfold block_text, array_text; norm_app; reflexivity).
  apply free_app; [exact H1|]. apply free_app; [|exact H4].
  now apply free_body.
Qed.

Lemma inner_block (init : list Z) (op : str) (last : Z) :
  inner (block_text init op last) = 32%N :: array_text init op last ++ [32%N].
Proof.
  unfold inner, block_text. cbn [tl].
  replace (32%N :: array_text init op last ++ [32%N; dollar])
    with ((32%N :: array_text init op last ++ [32%N]) ++ [dollar])
    by (norm_app; reflexivity).
  apply removelast_last.
Qed.

Lemma block_Spans (init : list Z) (op : str) (last : Z) :
  is_sign op = true ->
  Spans (block_text init op last) [inner (block_text init op last)].
Proof.
  intros Hop. rewrite inner_block.
  replace (block_text init op last)
    with ([] ++ dollar :: (32%N :: array_text init op last ++ [32%N])
             ++ dollar :: [])
    by (unfold block_text; norm_app; reflexivity).
  apply Spans_cons; [reflexivity | | now apply Spans_gap].
  rewrite lacks_cons, lacks_app.
  now rewrite lacks_array_text.
Qed.

Lemma array_text_shape (init : list Z) (op : str) (last : Z) :
  array_text init op last
  = B_array ++ (lit "{r}" ++ NL :: body init op last ++ [NL]) ++ E_array.
Proof. unfold array_text, B_array, E_array. norm_app. reflexivity. Qed.

Lemma block_array_span (init : list Z) (op : str) (last : Z) :
  strip (inner (block_text init op last)) = array_text init op last
  /\ is_array_span (inner (block_text init op last)) = true.
Proof.
  rewrite inner_block.
  destruct (array_shape_span (32%N :: array_text init op last ++ [32%N])
              (lit "{r}" ++ NL :: body init op last ++ [NL]) [32%N])
    as [Hs Hi].
  - change (32%N :: array_text init op last ++ [32%N])
      with ([32%N] ++ array_text init op last ++ [32%N]).
    rewrite lstrip_allspace by reflexivity.
    rewrite array_text_shape.
    change B_array with (92%N :: lit "begin{array}").
    norm_app. now rewrite lstrip_nonspace.
  - reflexivity.
  - split; [|exact Hi]. rewrite Hs. symmetry. apply array_text_shape.
Qed.

Lemma wf_block_shape (b : str) :
  wf_block b ->
  exists init op last, is_sign op = true /\ b = block_text init op last.
Proof.
  intros (p & [Hn Hops] & Hs).
  destruct (serialize_ok_inv p b Hn Hs) as (init & last & ops & op & _ & Ho & ->).
  exists init, op, last. split; [|reflexivity].
  rewrite Ho in Hops. apply Forall_app in Hops as [_ Hops].
  now inversion Hops.
Qed.

End Blocks.

(** ** Assembled documents *)

Section Documents.

Local Open Scope Z_scope.

Lemma wf_block_cell (b : str) : wf_block b -> cell_ok b.
Proof.
  intros H. destruct (wf_block_shape b H) as (init & op & last & Hop & ->).
  repeat split.
  - now apply block_Spans.
  - now apply free_block.
  - now apply free_block.
  - apply block_array_span.
Qed.

Lemma cells_ok_span (bs : list str) :
  Forall cell_ok bs -> Forall span_cell bs.
Proof. apply Forall_impl. now intros b [H _]. Qed.

Lemma join_Spans (sep : str) (bs : list str) :
  lacks dollar sep = true ->
  Forall span_cell bs ->
  Spans (join sep bs) (map inner bs).
Proof.
  intros Hsep H. induction H as [|b bs Hb Hbs IH].
  - now apply Spans_gap.
  - destruct bs as [|q bs]; [apply Hb|].
    rewrite join_cons_cons.
    apply (Spans_app b _ [inner b]); [apply Hb|].
    now apply Spans_gap_app.
Qed.

Lemma join_free (l sep : str) (bs : list str) :
  free l sep = true ->
  Forall (fun b => free l b = true) bs ->
  free l (join sep bs) = true.
Proof.
  intros Hsep H. induction H as [|b bs Hb Hbs IH]; [reflexivity|].
  destruct bs as [|q bs]; [exact Hb|].
  rewrite join_cons_cons. apply free_app; [exact Hb|].
  now apply free_app.
Qed.

Lemma row_Spans (R r : Z) (bs : list str) :
  Forall span_cell bs -> Spans (row_text R r bs) (map inner bs).
Proof.
  intros H. unfold row_text. rewrite <- (app_nil_r (map inner bs)).
  apply Spans_app; [now apply join_Spans|].
  apply Spans_gap. now destruct (r <? R - 1).
Qed.

Lemma row_free (l : str) (R r : Z) (bs : list str) :
  free l (lit " & ") = true ->
  free l (lit " \\" ++ [NL]) = true ->
  free l [NL] = true ->
  Forall (fun b => free l b = true) bs ->
  free l (row_text R r bs) = true.
Proof.
  intros H1 H2 H3 H. unfold row_text.
  apply free_app; [now apply join_free|].
  now destruct (r <? R - 1).
Qed.

Lemma snd_combine {A B} (l1 : list A) (l2 : list B) :
  length l1 = length l2 -> map snd (combine l1 l2) = l2.
Proof.
  revert l2. induction l1 as [|a l1 IH]; intros [|b l2] H; try discriminate.
  - reflexivity.
  - simpl. f_equal. apply IH. now injection H.
Qed.

Lemma rows_Spans (R : Z) (irs : list (Z * list str)) :
  Forall (fun ir => Forall span_cell (snd ir)) irs ->
  Spans (concat (map (fun ir => row_text R (fst ir) (snd ir)) irs))
    (map inner (concat (map snd irs))).
Proof.
  intros H. induction H as [|ir irs Hir _ IH]; simpl.
  - now apply Spans_gap.
  - rewrite map_app. apply Spans_app; [now apply row_Spans | exact IH].
Qed.

Lemma rows_free (l : str) (R : Z) (irs : list (Z * list str)) :
  free l (lit " & ") = true ->
  free l (lit " \\" ++ [NL]) = true ->
  free l [NL] = true ->
  Forall (fun ir => Forall (fun b => free l b = true) (snd ir)) irs ->
  free l (concat (map (fun ir => row_text R (fst ir) (snd ir)) irs)) = true.
Proof.
  intros H1 H2 H3 H. apply free_concat_map. intros ir Hin.
  apply row_free; try assumption.
  rewrite Forall_forall in H. now apply H.
Qed.

Lemma filter_cells (bs : list str) :
  Forall cell_ok bs ->
  map strip (filter is_array_span (map inner bs)) = map array_of bs.
Proof.
  induction 1 as [|b bs Hb _ IH]; [reflexivity|].
  simpl. destruct Hb as [_ ->]. simpl. now rewrite IH.
Qed.

Lemma range_length (n : Z) : length (range n) = Z.to_nat n.
Proof. unfold range. now rewrite length_map, length_seq. Qed.

(** The narrowed interior of the document text built around a grid of
    span cells: the spans of the cells, in order. *)
Lemma narrow_grid (c R : Z) (irs : list (Z * list str)) :
  Forall (fun ir => Forall span_cell (snd ir)) irs ->
  Spans
    (narrow
       (header c ++ concat (map (fun ir => row_text R (fst ir) (snd ir)) irs)
          ++ footer))
    (map inner (concat (map snd irs))).
Proof.
  intros H.
  assert (Hsub : forall (P : str -> Prop),
             (forall b, span_cell b -> P b) ->
             Forall (fun ir => Forall P (snd ir)) irs).
  { intros P HP. eapply Forall_impl; [|exact H].
    intros ir Hir. eapply Forall_impl; [|exact Hir]. exact HP. }
  rewrite narrow_document.
  - apply Spans_rstrip. rewrite app_assoc.
    apply Spans_gap_app; [reflexivity|]. now apply rows_Spans.
  - apply rows_free; try reflexivity. apply Hsub. intros b Hb. apply Hb.
  - apply rows_free; try reflexivity. apply Hsub. intros b Hb. apply Hb.
Qed.


(** Extraction on the document text built around a grid of cells. *)
Lemma math_blocks_grid (c R : Z) (irs : list (Z * list str)) :
  Forall (fun ir => Forall cell_ok (snd ir)) irs ->
  math_blocks
    (header c ++ concat (map (fun ir => row_text R (fst ir) (snd ir)) irs)
       ++ footer)
  = map array_of (concat (map snd irs)).
Proof.
  intros H.
  rewrite (math_blocks_Spans _ (map inner (concat (map snd irs)))).
  - apply filter_cells. apply Forall_concat.
    apply Forall_map. exact H.
  - apply narrow_grid. eapply Forall_impl; [|exact H].
    intros ir. apply cells_ok_span.
Qed.

Lemma math_blocks_assembled (c : Z) (rows : list (list str)) :
  Forall (Forall cell_ok) rows ->
  math_blocks (assemble_document c rows) = map array_of (concat rows).
Proof.
  intros H. unfold assemble_document. rewrite math_blocks_grid.
  - rewrite snd_combine; [reflexivity|].
    rewrite range_length. unfold len. now rewrite Nat2Z.id.
  - apply Forall_forall. intros [i row] Hin. simpl.
    apply in_combine_r in Hin. rewrite Forall_forall in H. now apply H.
Qed.

End Documents.

(** ** Parsing a serialized block *)

Section Parsing.

Local Open Scope Z_scope.

Lemma nospace_uint (d : uint) : nospace (uint_chars d) = true.
Proof. induction d; simpl; auto. Qed.

Lemma nospace_str_of_int (x : Z) : nospace (str_of_int x) = true.
Proof. destruct x; simpl; auto using nospace_uint. Qed.

Lemma uint_chars_head (d : uint) :
  d <> Nil ->
  exists c t, uint_chars d = c :: t /\ ((48 <=? c) && (c <=? 57))%N = true.
Proof.
  destruct d; intros H; [contradiction| ..]; simpl; eauto.
Qed.

Lemma strip_nospace (t : str) : nospace t = true -> strip t = t.
Proof.
  intros H. rewrite <- (app_nil_r t) at 1.
  now apply (strip_padded [] t []).
Qed.

(** The text of the block once the delimiters are removed. *)
Lemma block_content_eq (init : list Z) (op : str) (last : Z) :
  is_sign op = true ->
  replace
    (replace (replace (array_text init op last) (lit "\begin{array}{r}") [])
       (lit "\end{array}") [])
    (lit "&") []
  = NL :: body init op last ++ [NL].
Proof.
  intros Hop.
  assert (H1 : replace (array_text init op last) (lit "\begin{array}{r}") []
               = (NL :: body init op last ++ [NL]) ++ lit "\end{array}" ++ []).
  { rewrite replace_nonempty by discriminate. unfold array_text.
    rewrite replace_go_hit by discriminate. cbn [app].
    rewrite <- (app_nil_r (NL :: body init op last ++ NL :: lit "\end{array}"))
      at 1.
    rewrite replace_go_free; [cbn [replace_go]; norm_app; reflexivity|].
    apply (free_app _ [NL]); [reflexivity|].
    apply free_app; [now apply free_body | reflexivity]. }
  rewrite H1. clear H1.
  assert (H2 : replace ((NL :: body init op last ++ [NL])
                        ++ lit "\end{array}" ++ []) (lit "\end{array}") []
               = NL :: body init op last ++ [NL]).
  { rewrite replace_nonempty by discriminate.
    rewrite replace_go_free.
    - rewrite replace_go_hit by discriminate. cbn [replace_go app].
      now rewrite app_nil_r.
    - apply (free_app _ [NL]); [reflexivity|].
      apply free_app; [now apply free_body | reflexivity]. }
  rewrite H2. clear H2.
  apply replace_free; [discriminate|].
  apply free_lacks. rewrite lacks_cons, lacks_app.
  now rewrite lacks_body.
Qed.

Lemma block_content_pieces (init : list Z) (op : str) (last : Z) :
  NL :: body init op last ++ [NL]
  = concat (map (fun p => p ++ lit "\\") (map piece init ++ [last_piece op last]))
    ++ hline_piece.
Proof.
  assert (H : forall t,
             NL :: concat (map (fun x => 32%N :: str_of_int x ++ line_end) init)
                ++ t
             = concat (map (fun p => p ++ lit "\\") (map piece init))
               ++ NL :: t).
  { induction init as [|x init IH]; intros t; [reflexivity|].
    cbn [map concat]. rewrite <- !app_assoc. rewrite <- IH.
    unfold piece, line_end. norm_app. reflexivity. }
  unfold body. rewrite map_app, concat_app. cbn [map concat].
  rewrite app_nil_r. rewrite <- !app_assoc. rewrite H. f_equal.
  unfold last_piece, hline_piece, line_end. norm_app. reflexivity.
Qed.

Lemma raw_lines_eq (init : list Z) (op : str) (last : Z) :
  is_sign op = true ->
  split (NL :: body init op last ++ [NL]) (lit "\\")
  = Ok (map piece init ++ [last_piece op last; hline_piece]).
Proof.
  intros Hop. rewrite block_content_pieces.
  unfold split. change (lit "\\") with [92%N; 92%N]. cbv iota. f_equal.
  rewrite split_go_pieces; [now rewrite <- app_assoc | discriminate | | reflexivity].
  apply Forall_app. split.
  - apply Forall_map, Forall_forall. intros x _. apply free_lacks.
    unfold piece. rewrite !lacks_cons, lacks_app.
    now rewrite lacks_str_of_int.
  - constructor; [|constructor]. apply free_lacks.
    unfold last_piece. rewrite !lacks_cons, !lacks_app.
    now rewrite (lacks_op 92%N op Hop), lacks_str_of_int.
Qed.

(** One raw line that holds a token without blank or backslash. *)
Lemma parse_line_token (w1 w2 : str) (c : char) (t : str)
  (st : parse_state) :
  allspace w1 = true -> allspace w2 = true ->
  nospace (c :: t) = true -> lacks 92%N (c :: t) = true ->
  parse_line (w1 ++ (c :: t) ++ w2) st
  = if ((c =? 43) || (c =? 45))%N
    then Ok (ParseState (parsed_lines_data st ++ [Number [c] (strip t)])
               (Z.max (max_number_part_len st) (len (strip t))) true)
    else Ok (ParseState (parsed_lines_data st ++ [Number [] (c :: t)])
               (Z.max (max_number_part_len st) (len (c :: t)))
               (has_operator_column st)).
Proof.
  intros H1 H2 Hn Hb. unfold parse_line. cbv zeta.
  rewrite strip_padded by assumption. cbv iota.
  change hline_re with (chars (lit "\hline") ++ []).
  rewrite search_none_free; [|discriminate|now apply free_lacks].
  change (startswith (c :: t) (lit "+")) with ((c =? 43)%N && true).
  change (startswith (c :: t) (lit "-")) with ((c =? 45)%N && true).
  rewrite !andb_true_r.
  destruct ((c =? 43) || (c =? 45))%N; [|reflexivity].
  change (getitem (c :: t) 0) with (getitem (c :: t) (Z.of_nat 0)).
  rewrite (getitem_nat (c :: t) 0 c eq_refl). reflexivity.
Qed.

Lemma digit_not_sign (c : char) :
  ((48 <=? c) && (c <=? 57))%N = true -> ((c =? 43) || (c =? 45))%N = false.
Proof.
  intros H. apply andb_true_iff in H as [H1 H2].
  apply N.leb_le in H1. apply orb_false_iff.
  split; apply N.eqb_neq; lia.
Qed.

Lemma parse_piece (x : Z) (st : parse_state) :
  parse_line (piece x) st
  = Ok (ParseState (parsed_lines_data st ++ [operand_line x])
          (operand_width (max_number_part_len st) x)
          ((x <? 0) || has_operator_column st)).
Proof.
  destruct x as [|q|q].
  - reflexivity.
  - destruct (uint_chars_head (Pos.to_uint q)) as (c & t & E & Hd);
      [apply DecimalPos.Unsigned.to_uint_nonnil|].
    pose proof (nospace_str_of_int (Z.pos q)) as Hn.
    pose proof (lacks_str_of_int 92%N (Z.pos q) eq_refl) as Hb.
    unfold piece, operand_line, operand_width.
    cbn [str_of_int Z.abs Z.ltb Z.compare orb] in *. rewrite E in *.
    change (NL :: 32%N :: (c :: t) ++ [32%N; 32%N])
      with ([NL; 32%N] ++ (c :: t) ++ [32%N; 32%N]).
    rewrite parse_line_token by (assumption || reflexivity).
    now rewrite digit_not_sign.
  - pose proof (nospace_str_of_int (Z.neg q)) as Hn.
    pose proof (lacks_str_of_int 92%N (Z.neg q) eq_refl) as Hb.
    unfold piece, operand_line, operand_width.
    cbn [str_of_int Z.abs Z.ltb Z.compare orb Z.opp] in *.
    change (NL :: 32%N :: (45%N :: uint_chars (Pos.to_uint q)) ++ [32%N; 32%N])
      with ([NL; 32%N] ++ (45%N :: uint_chars (Pos.to_uint q))
              ++ [32%N; 32%N]).
    rewrite parse_line_token by (assumption || reflexivity).
    cbn [N.eqb Pos.eqb orb].
    now rewrite (strip_nospace _ (nospace_uint (Pos.to_uint q))).
Qed.

Lemma parse_last (op : str) (x : Z) (st : parse_state) :
  is_sign op = true ->
  parse_line (last_piece op x) st
  = Ok (ParseState (parsed_lines_data st ++ [Number op (str_of_int x)])
          (Z.max (max_number_part_len st) (len (str_of_int x))) true).
Proof.
  intros Hop.
  pose proof (nospace_str_of_int x) as Hn.
  pose proof (lacks_str_of_int 92%N x eq_refl) as Hb.
  destruct (is_sign_cases op Hop) as [-> | ->]; unfold last_piece;
    match goal with
    | |- parse_line (NL :: 32%N :: [?c] ++ ?s ++ ?w) _ = _ =>
        change (NL :: 32%N :: [c] ++ s ++ w) with ([NL; 32%N] ++ (c :: s) ++ w)
    end;
    (rewrite parse_line_token;
     [ cbn [N.eqb Pos.eqb orb]; now rewrite (strip_nospace _ Hn)
     | reflexivity | reflexivity
     | cbn [nospace forallb]; exact Hn
     | rewrite lacks_cons; exact Hb ]).
Qed.

Lemma parse_hline (st : parse_state) :
  parse_line hline_piece st
  = Ok (ParseState (parsed_lines_data st ++ [Hline])
          (max_number_part_len st) (has_operator_column st)).
Proof. reflexivity. Qed.

Lemma rfor_each_app {A S} (l1 l2 : list A) (f : A -> S -> result S) (s : S) :
  rfor_each (l1 ++ l2) f s = rbind (rfor_each l1 f s) (rfor_each l2 f).
Proof.
  revert s. induction l1 as [|a l1 IH]; intros s; simpl.
  - now destruct (rfor_each l2 f s).
  - destruct (f a s); simpl; [apply IH | reflexivity].
Qed.

Lemma parse_operands (init : list Z) (st : parse_state) :
  rfor_each (map piece init) (fun line st => parse_line line st) st
  = Ok (ParseState (parsed_lines_data st ++ map operand_line init)
          (fold_left operand_width init (max_number_part_len st))
          (existsb (fun x => x <? 0) init || has_operator_column st)).
Proof.
  revert st. induction init as [|x init IH]; intros st.
  - simpl. rewrite app_nil_r. now destruct st.
  - cbn [map rfor_each]. rewrite parse_piece. cbn [rbind]. rewrite IH.
    cbn [parsed_lines_data max_number_part_len has_operator_column
         fold_left existsb map].
    rewrite <- app_assoc. f_equal. f_equal.
    now destruct (x <? 0), (existsb (fun x => x <? 0) init),
      (has_operator_column st).
Qed.

(** The layout computed for the array of a serialized problem. *)
Theorem parse_block_shape (init : list Z) (op : str) (last : Z) :
  is_sign op = true ->
  parse_block (array_text init op last)
  = let w := Z.max (fold_left operand_width init 0) (len (str_of_int last)) in
    Ok (Layout (map operand_line init ++ [Number op (str_of_int last); Hline])
          w true 2 (Z.max (w + 2) 5)).
Proof.
  intros Hop. unfold parse_block. cbv zeta.
  rewrite block_content_eq by exact Hop.
  rewrite raw_lines_eq by exact Hop. cbn [rbind].
  rewrite rfor_each_app, parse_operands. cbn [rbind rfor_each].
  rewrite parse_last by exact Hop. cbn [rbind]. rewrite parse_hline.
  cbn [rbind parsed_lines_data max_number_part_len has_operator_column].
  rewrite <- !app_assoc. reflexivity.
Qed.

End Parsing.

(** ** The generator *)

Section Generator.

Local Open Scope Z_scope.

Lemma randint_run (a b : Z) (g : rng) :
  a <= b -> randint a b g = Ok (a + g O mod (b - a + 1), next g).
Proof.
  intros H. unfold randint.
  assert (E : (b <? a) = false) by (apply Z.ltb_ge; lia). now rewrite E.
Qed.

Lemma randint_range (a b : Z) (g : rng) (x : Z) (g' : rng) :
  randint a b g = Ok (x, g') -> a <= x <= b.
Proof.
  unfold randint. destruct (Z.ltb_spec b a); [discriminate|].
  intros E. injection E as <- _.
  pose proof (Z.mod_pos_bound (g O) (b - a + 1)). lia.
Qed.

Lemma choice_bool_run (g : rng) :
  exists v, choice [true; false] g = Ok (v, next g).
Proof.
  unfold choice. change (len [true; false]) with 2.
  pose proof (Z.mod_pos_bound (g O) 2 eq_refl) as Hb.
  assert (Hc : g O mod 2 = 0 \/ g O mod 2 = 1) by lia.
  destruct Hc as [-> | ->]; simpl; eauto.
Qed.

(** The loop that draws the operands of a problem with three or four. *)
Lemma operands_loop {A} (l : list A) (acc : list Z) (g : rng) :
  exists xs g',
    for_each l (fun _ numbers => x <- randint 1 99 ;; ret (numbers ++ [x]))
      acc g
    = Ok (acc ++ xs, g')
    /\ length xs = length l /\ Forall (fun x => 1 <= x <= 99) xs.
Proof.
  revert acc g. induction l as [|a l IH]; intros acc g.
  - exists [], g. rewrite app_nil_r. now repeat split.
  - cbn [for_each]. unfold bind at 1. unfold bind at 1.
    rewrite randint_run by lia. unfold ret at 1.
    destruct (IH (acc ++ [1 + g O mod (99 - 1 + 1)]) (next g))
      as (xs & g' & E & Hlen & Hall).
    exists ((1 + g O mod (99 - 1 + 1)) :: xs), g'. repeat split.
    + rewrite E. now rewrite <- app_assoc.
    + simpl. now rewrite Hlen.
    + constructor; [|exact Hall].
      pose proof (Z.mod_pos_bound (g O) (99 - 1 + 1)). lia.
Qed.

(** The loop that fills [operators] for three or four operands. *)
Lemma operators_loop {A} (operation_type : str) (l : list A) (acc : list str) :
  fold_left
    (fun operators _ =>
       if str_eqb operation_type (lit "plus")
       then operators ++ [lit "+"]
       else if str_eqb operation_type (lit "mix")
            then operators ++ [lit "+"]
            else operators) l acc
  = if str_eqb operation_type (lit "plus")
       || str_eqb operation_type (lit "mix")
    then acc ++ repeat (lit "+") (length l)
    else acc.
Proof.
  revert acc. induction l as [|a l IH]; intros acc; cbn [fold_left].
  - destruct (_ || _); [now rewrite app_nil_r | reflexivity].
  - rewrite IH.
    destruct (str_eqb operation_type (lit "plus")),
      (str_eqb operation_type (lit "mix")); cbn [orb length repeat];
      try reflexivity; now rewrite <- app_assoc.
Qed.

(** Every outcome of the number generation. *)
Lemma synthesize_cases (operation_type : str) (max_stack_height : Z)
  (g : rng) (p : problem) (g' : rng) :
  synthesize operation_type max_stack_height g = Ok (p, g') ->
  2 <= n_numbers p <= max_stack_height
  /\ n_numbers p = len (numbers p)
  /\ Forall (fun x => 1 <= x) (numbers p)
  /\ ((n_numbers p = 2
       /\ exists a b o,
            numbers p = [a; b] /\ operators p = [o] /\ is_sign o = true
            /\ (o = lit "-" -> b <= a))
      \/ (n_numbers p <> 2
          /\ operators p
             = if str_eqb operation_type (lit "plus")
                  || str_eqb operation_type (lit "mix")
               then repeat (lit "+") (Z.to_nat (n_numbers p - 1))
               else [])).
Proof.
  intros Hrun. unfold synthesize in Hrun. unfold bind at 1 in Hrun.
  destruct (randint 2 max_stack_height g) as [[n g1]|] eqn:E0; [|discriminate].
  apply randint_range in E0. destruct (Z.eqb_spec n 2) as [-> | Hn].
  - unfold bind at 1 in Hrun.
    destruct (randint 10 999 g1) as [[a g2]|] eqn:Ea; [|discriminate].
    unfold bind at 1 in Hrun.
    destruct (randint 1 99 g2) as [[b g3]|] eqn:Eb; [|discriminate].
    apply randint_range in Ea, Eb. unfold bind at 1 in Hrun.
    destruct ((if str_eqb operation_type (lit "minus") then ret true
               else if str_eqb operation_type (lit "mix")
                    then choice [true; false]
                    else ret false) g3) as [[sub g4]|]; [|discriminate].
    destruct sub.
    + unfold bind at 1 in Hrun. destruct (Z.leb_spec a b) as [Hle|Hgt].
      * unfold bind at 1 in Hrun.
        destruct (randint 10 50 g4) as [[r g5]|] eqn:Er; [|discriminate].
        apply randint_range in Er. cbn in Hrun. injection Hrun as <- _.
        cbn [n_numbers numbers operators]. repeat split; try lia.
        -- repeat constructor; lia.
        -- left. split; [reflexivity|].
           exists (b + r), a, (lit "-"). repeat split. intros _. lia.
      * cbn in Hrun. injection Hrun as <- _.
        cbn [n_numbers numbers operators]. repeat split; try lia.
        -- repeat constructor; lia.
        -- left. split; [reflexivity|].
           exists a, b, (lit "-"). repeat split. intros _. lia.
    + cbn in Hrun. injection Hrun as <- _.
      cbn [n_numbers numbers operators]. repeat split; try lia.
      * repeat constructor; lia.
      * left. split; [reflexivity|].
        exists a, b, (lit "+"). repeat split. intros H. discriminate.
  - unfold bind at 1 in Hrun.
    destruct (operands_loop (range n) [] g1) as (xs & g2 & E & Hlen & Hall).
    rewrite E in Hrun. cbn in Hrun. injection Hrun as <- _.
    cbn [n_numbers numbers operators]. rewrite range_length in Hlen.
    repeat split; try lia.
    + unfold len. rewrite Hlen. lia.
    + eapply Forall_impl; [|exact Hall]. cbn. intros; lia.
    + right. split; [exact Hn|]. rewrite operators_loop.
      now rewrite range_length.
Qed.

Lemma Forall_repeat {A} (P : A -> Prop) (x : A) (n : nat) :
  P x -> Forall P (repeat x n).
Proof. intros H. induction n; simpl; auto. Qed.

Lemma synthesize_well_formed (operation_type : str) (max_stack_height : Z)
  (g : rng) (p : problem) (g' : rng) :
  synthesize operation_type max_stack_height g = Ok (p, g') ->
  well_formed p /\ Forall (fun x => 0 <= x) (numbers p).
Proof.
  intros H. apply synthesize_cases in H as (_ & Hn & Hpos & Hops).
  split; [split; [exact Hn|] |].
  - destruct Hops as [(_ & a & b & o & _ & -> & Ho & _) | [_ ->]].
    + now constructor.
    + destruct (_ || _); [now apply Forall_repeat | constructor].
  - eapply Forall_impl; [|exact Hpos]. cbn. intros; lia.
Qed.

(** A generated block is a well-formed block. *)
Lemma generated_wf_block (operation_type : str) (max_stack_height : Z)
  (g : rng) (s : str) (g' : rng) :
  generate_problem_latex operation_type max_stack_height g = Ok (s, g') ->
  wf_block s.
Proof.
  unfold generate_problem_latex, bind, lift. intros H.
  destruct (synthesize operation_type max_stack_height g) as [[p g1]|] eqn:E;
    [|discriminate].
  destruct (serialize p) as [s'|] eqn:Es; [|discriminate].
  injection H as <- _. exists p. split; [|exact Es].
  now apply synthesize_well_formed in E.
Qed.

End Generator.

(** ** Totality of the generator, and where it fails *)

Section GeneratorRuns.

Local Open Scope Z_scope.

(** The number generation itself never raises on a legal bound. *)
Lemma synthesize_total (operation_type : str) (max_stack_height : Z)
  (g : rng) :
  2 <= max_stack_height ->
  exists p g', synthesize operation_type max_stack_height g = Ok (p, g').
Proof.
  intros Hh. unfold synthesize. unfold bind at 1.
  rewrite randint_run by exact Hh.
  destruct (_ =? 2).
  - unfold bind at 1. rewrite randint_run by lia.
    unfold bind at 1. rewrite randint_run by lia.
    unfold bind at 1.
    set (g3 := next (next (next g))).
    assert (Hsub : exists v g4,
               (if str_eqb operation_type (lit "minus") then ret true
                else if str_eqb operation_type (lit "mix")
                     then choice [true; false]
                     else ret false) g3 = Ok (v, g4)).
    { destruct (str_eqb operation_type (lit "minus")); [now eexists; eexists|].
      destruct (str_eqb operation_type (lit "mix")); [|now eexists; eexists].
      destruct (choice_bool_run g3) as [v Hv]. eauto. }
    destruct Hsub as (v & g4 & ->). destruct v.
    + unfold bind at 1. destruct (_ <=? _).
      * unfold bind at 1. rewrite randint_run by lia. unfold bind, ret. eauto.
      * unfold bind, ret. eauto.
    + unfold bind, ret. eauto.
  - unfold bind at 1.
    match goal with
    | |- context [for_each ?l _ [] ?g1] =>
        destruct (operands_loop l [] g1) as (xs & g2 & -> & _ & _)
    end.
    unfold bind, ret. eauto.
Qed.

Lemma serialize_total (p : problem) :
  n_numbers p = len (numbers p) -> numbers p <> [] -> operators p <> [] ->
  exists s, serialize p = Ok s.
Proof.
  destruct p as [n ns os]. cbn [n_numbers numbers operators].
  intros -> Hns Hos.
  destruct (exists_last Hns) as (init & last & ->).
  destruct (exists_last Hos) as (ops & op & ->).
  rewrite serialize_shape. eauto.
Qed.

(** The string construction raises when no operator was recorded. *)
Lemma serialize_no_operator (n : Z) (ns : list Z) :
  n = len ns -> serialize (Problem n ns []) = Raise IndexError.
Proof.
  intros ->. destruct ns as [|x ns].
  - reflexivity.
  - destruct (exists_last (l := x :: ns)) as (init & last & E); [discriminate|].
    rewrite E. unfold serialize. cbn [n_numbers numbers operators].
    replace (len (init ++ [last]) - 1) with (len init)
      by (unfold len; rewrite length_app; simpl; lia).
    rewrite range_len.
    pose proof (parts_loop (fun x => lit " " ++ str_of_int x ++ lit " ")
                  [] init [last] []) as HL.
    cbn [length app] in HL. rewrite HL. cbn [rbind].
    now rewrite getitem_nil.
Qed.

(** Problem synthesis is total in the [plus] and [mix] modes. *)
Lemma generate_total_plus_mix (operation_type : str) (max_stack_height : Z)
  (g : rng) :
  operation_type = lit "plus" \/ operation_type = lit "mix" ->
  2 <= max_stack_height ->
  exists s g',
    generate_problem_latex operation_type max_stack_height g = Ok (s, g').
Proof.
  intros Hop Hh. unfold generate_problem_latex, bind, lift.
  destruct (synthesize_total operation_type max_stack_height g Hh)
    as (p & g1 & E).
  rewrite E. destruct (synthesize_cases _ _ _ _ _ E) as (Hn & Hlen & _ & Hops).
  destruct (serialize_total p) as [s Hs].
  - exact Hlen.
  - intros H0. rewrite H0 in Hlen. cbn in Hlen. lia.
  - destruct Hops as [(_ & a & b & o & _ & -> & _) | [Hne ->]];
      [discriminate|].
    assert (Hpm : str_eqb operation_type (lit "plus")
                  || str_eqb operation_type (lit "mix") = true)
      by (destruct Hop as [-> | ->]; reflexivity).
    rewrite Hpm.
    destruct (Z.to_nat (n_numbers p - 1)) eqn:En; [lia | discriminate].
  - rewrite Hs. eauto.
Qed.

(** In the [minus] mode it is total exactly when the drawn count is two:
    any other count leaves [operators] empty and [operators[-1]] raises. *)
Lemma generate_minus_two (max_stack_height : Z) (g : rng) :
  2 <= max_stack_height ->
  g O mod (max_stack_height - 2 + 1) = 0 ->
  exists s g',
    generate_problem_latex (lit "minus") max_stack_height g = Ok (s, g').
Proof.
  intros Hh H0. unfold generate_problem_latex, bind, lift.
  destruct (synthesize_total (lit "minus") max_stack_height g Hh)
    as (p & g1 & E).
  rewrite E. pose proof E as E'. unfold synthesize in E'.
  unfold bind at 1 in E'. rewrite randint_run in E' by exact Hh.
  rewrite H0 in E'. change (2 + 0 =? 2) with true in E'. cbv iota in E'.
  destruct (synthesize_cases _ _ _ _ _ E) as (Hn & Hlen & _ & Hops).
  destruct (serialize_total p) as [s Hs].
  - exact Hlen.
  - intros Hnil. rewrite Hnil in Hlen. cbn in Hlen. lia.
  - destruct Hops as [(_ & a & b & o & _ & -> & _) | [Hne _]];
      [discriminate|].
    exfalso. apply Hne. clear -E'.
    unfold bind at 1 in E'. rewrite randint_run in E' by lia.
    unfold bind at 1 in E'. rewrite randint_run in E' by lia.
    unfold bind at 1 in E'. cbn [str_eqb] in E'.
    change (str_eqb (lit "minus") (lit "minus")) with true in E'.
    cbv iota in E'. unfold ret at 1 in E'. cbv iota beta in E'.
    unfold bind at 1 in E'. destruct (_ <=? _).
    + unfold bind at 1 in E'. rewrite randint_run in E' by lia.
      unfold bind, ret in E'. now injection E' as <- _.
    + unfold bind, ret in E'. now injection E' as <- _.
  - rewrite Hs. eauto.
Qed.

Lemma generate_minus_raises (max_stack_height : Z) (g : rng) :
  2 <= max_stack_height ->
  g O mod (max_stack_height - 2 + 1) <> 0 ->
  generate_problem_latex (lit "minus") max_stack_height g = Raise IndexError.
Proof.
  intros Hh H0. unfold generate_problem_latex, bind, lift.
  destruct (synthesize_total (lit "minus") max_stack_height g Hh)
    as (p & g1 & E).
  rewrite E. destruct (synthesize_cases _ _ _ _ _ E) as (Hn & Hlen & _ & Hops).
  assert (Hcount : n_numbers p = 2 + g O mod (max_stack_height - 2 + 1)).
  { unfold synthesize in E. unfold bind at 1 in E.
    rewrite randint_run in E by exact Hh.
    destruct (_ =? 2).
    - unfold bind at 1 in E. rewrite randint_run in E by lia.
      unfold bind at 1 in E. rewrite randint_run in E by lia.
      unfold bind at 1 in E.
      change (str_eqb (lit "minus") (lit "minus")) with true in E.
      cbv iota in E. unfold ret at 1 in E. cbv iota beta in E.
      unfold bind at 1 in E. destruct (_ <=? _).
      + unfold bind at 1 in E. rewrite randint_run in E by lia.
        unfold bind, ret in E. now injection E as <- _.
      + unfold bind, ret in E. now injection E as <- _.
    - unfold bind at 1 in E.
      match type of E with
      | context [for_each ?l _ [] ?g1] =>
          destruct (operands_loop l [] g1) as (xs & g2 & Ex & _ & _)
      end.
      rewrite Ex in E. unfold bind, ret in E. now injection E as <- _. }
  destruct Hops as [(H2 & _) | [_ Hops]]; [lia|].
  change (str_eqb (lit "minus") (lit "plus") || str_eqb (lit "minus") (lit "mix"))
    with false in Hops.
  destruct p as [n ns os]. cbn [n_numbers numbers operators] in *. subst os.
  now rewrite serialize_no_operator.
Qed.




End GeneratorRuns.

(** ** Blocks without Number lines *)

Section Degenerate.

Local Open Scope Z_scope.

Lemma rmatch_literal (l s : str) (i : nat) :
  rmatch (chars l) [] [] s i
  = if startswith s l then Some ([], (i + length l)%nat) else None.
Proof.
  revert s i. induction l as [|c l IH]; intros s i.
  - cbn. now rewrite Nat.add_0_r.
  - cbn [chars map rmatch startswith]. fold (chars l).
    destruct s as [|x s]; [reflexivity|].
    destruct (x =? c)%N; [|reflexivity]. cbn [andb]. rewrite IH.
    cbn [length]. now rewrite Nat.add_succ_r.
Qed.

(** A search for a literal succeeds exactly on the texts in which the
    literal occurs. *)
Lemma search_from_literal (l s : str) (i : nat) :
  search_from (chars l) s i = if occurs l s then Some [] else None.
Proof.
  revert i. induction s as [|a s IH]; intros i.
  - cbn [search_from occurs]. rewrite rmatch_literal.
    destruct (startswith [] l); reflexivity.
  - cbn [search_from occurs]. rewrite rmatch_literal.
    destruct (startswith (a :: s) l); [reflexivity|]. cbn [orb]. apply IH.
Qed.

(** A pattern that begins with a literal finds nothing in a text in which
    the literal does not occur. *)
Lemma search_from_absent (l : str) (p : regex) (s : str) (i : nat) :
  occurs l s = false -> search_from (chars l ++ p) s i = None.
Proof.
  revert i. induction s as [|a s IH]; intros i H.
  - cbn [occurs] in H. apply orb_false_iff in H as [H _].
    cbn [search_from]. now rewrite rmatch_chars_miss.
  - cbn [occurs] in H. apply orb_false_iff in H as [H1 H2].
    cbn [search_from]. rewrite rmatch_chars_miss by exact H1. now apply IH.
Qed.

Lemma occurs_lstrip (c : char) (l s : str) :
  isspace c = false -> occurs (c :: l) s = true ->
  occurs (c :: l) (lstrip s) = true.
Proof.
  intros Hc. induction s as [|a s IH]; intros H; [exact H|].
  cbn [lstrip]. destruct (isspace a) eqn:Ha; [|exact H].
  cbn [occurs startswith] in H.
  destruct (N.eqb_spec a c) as [-> | _]; [congruence|].
  cbn [andb orb] in H. now apply IH.
Qed.

Lemma startswith_before_spaces (l x w : str) :
  nospace l = true -> allspace w = true ->
  startswith (x ++ w) l = true -> startswith x l = true.
Proof.
  intros Hl Hw. revert x. induction l as [|c l IH]; intros x H;
    [reflexivity|].
  cbn [nospace forallb] in Hl. apply andb_true_iff in Hl as [Hc Hl].
  apply negb_true_iff in Hc.
  destruct x as [|a x].
  - cbn [app] in H. destruct w as [|b w]; [discriminate|].
    cbn [startswith] in H. apply andb_true_iff in H as [Hb _].
    apply N.eqb_eq in Hb. subst b.
    cbn [allspace forallb] in Hw. rewrite Hc in Hw. discriminate.
  - cbn [app startswith] in *. apply andb_true_iff in H as [Ha H].
    rewrite Ha. cbn [andb]. now apply (IH Hl).
Qed.

Lemma occurs_before_spaces (l x w : str) :
  nospace l = true -> l <> [] -> allspace w = true ->
  occurs l (x ++ w) = true -> occurs l x = true.
Proof.
  intros Hl Hne Hw. induction x as [|a x IH]; intros H.
  - cbn [app] in H. exfalso.
    destruct l as [|c l]; [now apply Hne|].
    cbn [nospace forallb] in Hl. apply andb_true_iff in Hl as [Hc _].
    apply negb_true_iff in Hc.
    induction w as [|b w IHw]; [discriminate|].
    cbn [allspace forallb] in Hw. apply andb_true_iff in Hw as [Hb Hw].
    cbn [occurs startswith] in H.
    destruct (N.eqb_spec b c) as [-> | _]; [congruence|].
    cbn [andb orb] in H. now apply IHw.
  - cbn [app occurs] in H. cbn [occurs].
    apply orb_true_iff in H as [H|H]; apply orb_true_iff.
    + left. now apply (startswith_before_spaces l (a :: x) w).
    + right. now apply IH.
Qed.

Lemma occurs_rstrip (l s : str) :
  nospace l = true -> l <> [] ->
  occurs l s = true -> occurs l (rstrip s) = true.
Proof.
  intros Hl Hne H. destruct (rstrip_decomp s) as (w & Hs & Hw).
  rewrite Hs in H. now apply occurs_before_spaces in H.
Qed.

Lemma occurs_strip (c : char) (l s : str) :
  nospace (c :: l) = true ->
  occurs (c :: l) s = true -> occurs (c :: l) (strip s) = true.
Proof.
  intros Hl H. unfold strip. apply occurs_rstrip; [exact Hl|discriminate|].
  apply occurs_lstrip; [|exact H].
  cbn [nospace forallb] in Hl. apply andb_true_iff in Hl as [Hc _].
  now apply negb_true_iff in Hc.
Qed.

Lemma occurs_nonempty (l s : str) :
  l <> [] -> occurs l s = true -> s <> [].
Proof.
  intros Hne H ->. destruct l; [now apply Hne|]. discriminate.
Qed.

(** A raw line in which [\hline] occurs is parsed as a rule. *)
Lemma parse_line_hline (line_content : str) (st : parse_state) :
  occurs (lit "\hline") line_content = true ->
  parse_line line_content st
  = Ok (ParseState (parsed_lines_data st ++ [Hline])
          (max_number_part_len st) (has_operator_column st)).
Proof.
  intros H. change (lit "\hline") with (92%N :: lit "hline") in H.
  apply occurs_strip in H; [|reflexivity].
  unfold parse_line. cbv zeta.
  destruct (strip line_content) as [|a t] eqn:E; [discriminate|].
  unfold search, hline_re. rewrite search_from_literal.
  change (92%N :: lit "hline") with (lit "\hline") in H. now rewrite H.
Qed.

(** A blank raw line is skipped. *)
Lemma parse_line_blank (line_content : str) (st : parse_state) :
  strip line_content = [] -> parse_line line_content st = Ok st.
Proof. intros H. unfold parse_line. cbv zeta. now rewrite H. Qed.

Lemma blank_no_hline (line_content : str) :
  strip line_content = [] -> occurs (lit "\hline") line_content = false.
Proof.
  intros H. destruct (occurs (lit "\hline") line_content) eqn:E;
    [|reflexivity].
  change (lit "\hline") with (92%N :: lit "hline") in E.
  apply occurs_strip in E; [|reflexivity]. rewrite H in E. discriminate.
Qed.

Lemma repeat_snoc {A} (a : A) (k : nat) : repeat a k ++ [a] = repeat a (S k).
Proof. induction k as [|k IH]; [reflexivity|]. cbn. now rewrite IH. Qed.

(** The parsing loop on raw lines none of which holds a number: one rule
    for each line in which [\hline] occurs, the width and the flag of the
    operator column as they were. *)
Lemma parse_rules_loop (ls : list str) (k : nat) (w : Z) (f : bool) :
  Forall no_number ls ->
  rfor_each ls (fun line st => parse_line line st)
    (ParseState (repeat Hline k) w f)
  = Ok (ParseState
          (repeat Hline
             (k + length (filter (occurs (lit "\hline")) ls)))
          w f).
Proof.
  intros H. revert k. induction H as [|l ls Hl _ IH]; intros k.
  - cbn. now rewrite Nat.add_0_r.
  - cbn [rfor_each filter]. destruct Hl as [Hb | Hh].
    + rewrite parse_line_blank by exact Hb. cbn [rbind].
      rewrite (blank_no_hline l Hb). apply IH.
    + rewrite parse_line_hline by exact Hh. cbn [rbind].
      cbn [parsed_lines_data max_number_part_len has_operator_column].
      rewrite Hh, repeat_snoc, IH. cbn [length].
      now rewrite Nat.add_succ_r.
Qed.

End Degenerate.

(** ** Cells made of one dollar span *)

Section SpanCells.

Local Open Scope Z_scope.








End SpanCells.

(** * The properties of the specification *)

Section Claims.

Local Open Scope Z_scope.

(** ** Problem synthesis *)

(** C1, at the failing input. In the [minus] mode with a bound of four
    operands, a first draw that selects three operands makes
    [generate_problem_latex] raise [IndexError]: the operator list stays
    empty and [operators[-1]] fails. Synthesis is therefore not total in
    this mode ([generate_minus_raises] gives every such draw,
    [generate_total_plus_mix] the two modes where it is total). *)
Theorem minus_three_operands_raises :
  generate_problem_latex (lit "minus") 4 (fun _ => 1) = Raise IndexError.
Proof. reflexivity. Qed.

(** C2, at the failing input. In the [minus] mode with three drawn
    operands the number generation ends with three operands and an empty
    operator list, whose length is not the operand count minus one. *)
Theorem minus_three_operands_no_operator :
  exists g',
    synthesize (lit "minus") 4 (fun _ => 1) = Ok (Problem 3 [2; 2; 2] [], g')
    /\ len (operators (Problem 3 [2; 2; 2] [])) <> 3 - 1.
Proof. exists (fun _ => 1). split; [reflexivity | discriminate]. Qed.

(** In the [plus] and [mix] modes, three or four operands come with as
    many additions less one. *)
Lemma plus_mix_operators (operation_type : str) (max_stack_height : Z)
  (g : rng) (p : problem) (g' : rng) :
  operation_type = lit "plus" \/ operation_type = lit "mix" ->
  synthesize operation_type max_stack_height g = Ok (p, g') ->
  n_numbers p <> 2 ->
  len (operators p) = n_numbers p - 1
  /\ Forall (fun o => o = lit "+") (operators p).
Proof.
  intros Hop H Hn.
  apply synthesize_cases in H as (Hr & _ & _ & [[H2 _] | [_ ->]]);
    [contradiction|].
  assert (Hpm : str_eqb operation_type (lit "plus")
                || str_eqb operation_type (lit "mix") = true)
    by (destruct Hop as [-> | ->]; reflexivity).
  rewrite Hpm. split.
  - unfold len. rewrite repeat_length. lia.
  - now apply Forall_repeat.
Qed.

(** C3. Whatever the draws, a generated problem with two operands and a
    subtraction has its first operand greater than or equal to its
    second. *)
Theorem subtraction_first_ge_second
  (operation_type : str) (max_stack_height : Z) (g : rng)
  (p : problem) (g' : rng) :
  synthesize operation_type max_stack_height g = Ok (p, g') ->
  n_numbers p = 2 ->
  operators p = [lit "-"] ->
  exists a b, numbers p = [a; b] /\ b <= a.
Proof.
  intros H Hn Hop.
  apply synthesize_cases in H
    as (_ & _ & _ & [(_ & a & b & o & Hnum & Ho & _ & Hle) | [Hne _]]);
    [|contradiction].
  exists a, b. split; [exact Hnum|]. apply Hle.
  rewrite Ho in Hop. now injection Hop.
Qed.

(** The draws of this run give A = 10 and B = 51, so the fixup applies:
    with the third draw 10 the operands become 61 and 10. *)
Lemma subtraction_first_ge_second_witness :
  exists a b, [61; 10] = [a; b] /\ b <= a.
Proof.
  apply (subtraction_first_ge_second (lit "minus") 2
           (fun n => match n with 2%nat => 50 | _ => 0 end)
           (Problem 2 [61; 10] [lit "-"]) (fun _ => 0));
    reflexivity.
Defined.

(** ** Serialized blocks *)

Lemma math_blocks_block (init : list Z) (op : str) (last : Z) :
  is_sign op = true ->
  math_blocks (block_text init op last) = [array_text init op last].
Proof.
  intros Hop.
  rewrite (math_blocks_Spans _ [inner (block_text init op last)]).
  - destruct (block_array_span init op last) as [Hs Hi].
    cbn [filter]. rewrite Hi. cbn [map]. now rewrite Hs.
  - rewrite narrow_plain; [now apply block_Spans | |]; now apply free_block.
Qed.

Lemma operand_line_kind (x : Z) :
  is_number (operand_line x) = true /\ is_hline (operand_line x) = false.
Proof. unfold operand_line. now destruct (x <? 0). Qed.

Lemma operand_lines_number (init : list Z) :
  filter is_number (map operand_line init) = map operand_line init
  /\ filter is_hline (map operand_line init) = [].
Proof.
  induction init as [|x init [IH1 IH2]]; [now split|].
  destruct (operand_line_kind x) as [H1 H2].
  cbn [map filter]. now rewrite H1, H2, IH1, IH2.
Qed.

(** C4. For every well-formed problem that serializes, extraction finds
    the one block of the serialized text, and parsing it yields as many
    Number lines as the problem has operands, one Rule line, and nothing
    else. *)
Theorem parse_recovers_line_shape (p : problem) (s : str) :
  well_formed p ->
  serialize p = Ok s ->
  exists b lay,
    math_blocks s = [b]
    /\ parse_block b = Ok lay
    /\ length (filter is_number (lines lay)) = length (numbers p)
    /\ length (filter is_hline (lines lay)) = 1%nat
    /\ length (lines lay) = S (length (numbers p)).
Proof.
  intros [Hn Hops] Hs.
  destruct (serialize_ok_inv p s Hn Hs)
    as (init & last & ops & op & Hnum & Ho & ->).
  assert (Hop : is_sign op = true).
  { rewrite Ho in Hops. apply Forall_app in Hops as [_ Hops].
    now inversion Hops. }
  exists (array_text init op last). eexists.
  split; [now apply math_blocks_block|].
  split; [now apply parse_block_shape|].
  cbn [lines]. destruct (operand_lines_number init) as [H1 H2].
  rewrite !filter_app, H1, H2, Hnum, !length_app, length_map.
  cbn. repeat split; lia.
Qed.

Lemma parse_recovers_line_shape_witness :
  exists b lay,
    math_blocks (block_text [452] (lit "-") 37) = [b]
    /\ parse_block b = Ok lay
    /\ length (filter is_number (lines lay)) = 2%nat
    /\ length (filter is_hline (lines lay)) = 1%nat
    /\ length (lines lay) = 3%nat.
Proof.
  apply (parse_recovers_line_shape (Problem 2 [452; 37] [lit "-"])).
  - split; [reflexivity|]. repeat constructor.
  - reflexivity.
Defined.

(** The example of the specification: 452 - 37. *)
Example parse_452_minus_37 :
  parse_block (array_text [452] (lit "-") 37)
  = Ok (Layout [Number [] (lit "452"); Number (lit "-") (lit "37"); Hline]
          3 true 2 5).
Proof. reflexivity. Qed.

(** C10. For every well-formed problem with non-negative operands that
    serializes, the parsed lines of its block are the operand lines
    without a sign, then the last operand line with its sign, then the
    rule; the operator column is present and its width is 2. *)
Theorem sign_on_last_operand_only (p : problem) (s : str) :
  well_formed p ->
  Forall (fun x => 0 <= x) (numbers p) ->
  serialize p = Ok s ->
  exists b lay front sign_line,
    math_blocks s = [b]
    /\ parse_block b = Ok lay
    /\ lines lay = front ++ [sign_line; Hline]
    /\ S (length front) = length (numbers p)
    /\ Forall (fun l => has_sign l = false) front
    /\ has_sign sign_line = true
    /\ has_operator lay = true
    /\ operator_col_width lay = 2.
Proof.
  intros [Hn Hops] Hpos Hs.
  destruct (serialize_ok_inv p s Hn Hs)
    as (init & last & ops & op & Hnum & Ho & ->).
  assert (Hop : is_sign op = true).
  { rewrite Ho in Hops. apply Forall_app in Hops as [_ Hops].
    now inversion Hops. }
  exists (array_text init op last). eexists.
  exists (map operand_line init), (Number op (str_of_int last)).
  split; [now apply math_blocks_block|].
  split; [now apply parse_block_shape|].
  cbn [lines has_operator operator_col_width].
  repeat split.
  - rewrite Hnum, length_app, length_map. cbn. lia.
  - rewrite Hnum in Hpos. apply Forall_app in Hpos as [Hpos _].
    apply Forall_map. eapply Forall_impl; [|exact Hpos].
    intros x Hx. unfold operand_line.
    assert (E : (x <? 0) = false) by (apply Z.ltb_ge; exact Hx).
    now rewrite E.
  - now destruct (is_sign_cases op Hop) as [-> | ->].
Qed.

Lemma sign_on_last_operand_only_witness :
  exists b lay front sign_line,
    math_blocks (block_text [7; 15] (lit "+") 22) = [b]
    /\ parse_block b = Ok lay
    /\ lines lay = front ++ [sign_line; Hline]
    /\ S (length front) = 3%nat
    /\ Forall (fun l => has_sign l = false) front
    /\ has_sign sign_line = true
    /\ has_operator lay = true
    /\ operator_col_width lay = 2.
Proof.
  apply (sign_on_last_operand_only
           (Problem 3 [7; 15; 22] [lit "+"; lit "+"])).
  - split; [reflexivity|]. repeat constructor.
  - repeat constructor; discriminate.
  - reflexivity.
Defined.

End Claims.

Section ClaimsDocuments.

Local Open Scope Z_scope.

(** ** Documents *)

(** C5. For every grid of well-formed serialized blocks, extraction on
    the document assembled from it returns the array environments of the
    blocks, trimmed, in the original order. *)
Theorem extraction_returns_blocks_in_order (c : Z) (rows : list (list str)) :
  Forall (Forall wf_block) rows ->
  math_blocks (assemble_document c rows) = map array_of (concat rows).
Proof.
  intros H. apply math_blocks_assembled.
  eapply Forall_impl; [|exact H]. intros row Hrow.
  eapply Forall_impl; [|exact Hrow]. exact wf_block_cell.
Qed.

Lemma extraction_returns_blocks_in_order_witness :
  math_blocks
    (assemble_document 2
       [[block_text [452] (lit "-") 37; block_text [7; 15] (lit "+") 22];
        [block_text [61] (lit "+") 10]])
  = map array_of
      (concat
         [[block_text [452] (lit "-") 37; block_text [7; 15] (lit "+") 22];
          [block_text [61] (lit "+") 10]]).
Proof.
  apply extraction_returns_blocks_in_order.
  repeat constructor.
  - exists (Problem 2 [452; 37] [lit "-"]).
    split; [split; [reflexivity | repeat constructor] | reflexivity].
  - exists (Problem 3 [7; 15; 22] [lit "+"; lit "+"]).
    split; [split; [reflexivity | repeat constructor] | reflexivity].
  - exists (Problem 2 [61; 10] [lit "+"]).
    split; [split; [reflexivity | repeat constructor] | reflexivity].
Defined.

(** C6, counterexample. With zero rows the document is the header
    followed at once by the footer: no empty row stands between them. *)
Lemma zero_rows_no_empty_row :
  generate_latex_document (lit "plus") 5 0 4 (fun _ => 0)
  = Ok (header 5 ++ footer, fun _ => 0)
  /\ header 5 ++ footer <> header 5 ++ row_text 1 0 [] ++ footer.
Proof.
  split; [reflexivity|]. intros H. apply app_inv_head in H. discriminate.
Qed.

(** C6, amended. With zero rows [generate_latex_document] emits no row
    at all: the text is the header followed at once by the footer, the
    wrapper is complete, and extraction finds no block in it. *)
Theorem zero_rows_emit_no_row
  (operation_type : str) (c max_stack_height : Z) (g : rng) :
  generate_latex_document operation_type c 0 max_stack_height g
  = Ok (header c ++ footer, g)
  /\ math_blocks (header c ++ footer) = [].
Proof.
  split; [reflexivity|].
  apply (math_blocks_grid c 0 []). constructor.
Qed.

Lemma length_concat_const {A} (k : nat) (rows : list (list A)) :
  Forall (fun row => length row = k) rows ->
  length (concat rows) = (k * length rows)%nat.
Proof.
  induction 1 as [|row rows Hrow _ IH]; simpl; [lia|].
  rewrite length_app, Hrow, IH. lia.
Qed.




(** ** Extraction *)




(** ** Degenerate blocks *)

(** C9. For every raw block none of whose raw lines holds a number (each
    is blank or contains [\hline]), block parsing does not fail: the
    parsed lines are one rule for each line with [\hline], numberWidth is
    0, there is no operator column, and the rule width, which is
    max(numberWidth + operatorColumnWidth, 5), is the 5-character
    minimum. *)
Theorem degenerate_block_parses (latex_block : str) (ls : list str) :
  raw_lines latex_block = Ok ls ->
  Forall (fun l => strip l = [] \/ occurs (lit "\hline") l = true) ls ->
  exists lay,
    parse_block latex_block = Ok lay
    /\ lines lay
       = repeat Hline (length (filter (occurs (lit "\hline")) ls))
    /\ number_width lay = 0
    /\ has_operator lay = false
    /\ operator_col_width lay = 0
    /\ final_display_width lay
       = Z.max (number_width lay + operator_col_width lay) 5
    /\ final_display_width lay = 5.
Proof.
  intros Hraw Hall. unfold parse_block. cbv zeta.
  unfold raw_lines in Hraw. cbv zeta in Hraw. rewrite Hraw. cbn [rbind].
  change (@nil parsed_line) with (repeat Hline 0).
  rewrite (parse_rules_loop ls 0 0 false Hall). cbn [rbind].
  eexists. split; [reflexivity|].
  cbn [lines number_width has_operator operator_col_width
       final_display_width has_operator_column max_number_part_len
       parsed_lines_data].
  repeat split; reflexivity.
Qed.

Lemma degenerate_block_parses_witness :
  exists lay,
    parse_block (lit "\begin{array}{r} \\ \hline \\ & \hline x \\ \end{array}")
    = Ok lay
    /\ lines lay
       = repeat Hline
           (length
              (filter (occurs (lit "\hline"))
                 [lit " "; lit " \hline "; lit "  \hline x "; lit " "]))
    /\ number_width lay = 0
    /\ has_operator lay = false
    /\ operator_col_width lay = 0
    /\ final_display_width lay
       = Z.max (number_width lay + operator_col_width lay) 5
    /\ final_display_width lay = 5.
Proof.
  apply (degenerate_block_parses
           (lit "\begin{array}{r} \\ \hline \\ & \hline x \\ \end{array}")
           [lit " "; lit " \hline "; lit "  \hline x "; lit " "]).
  - reflexivity.
  - repeat constructor; (now left) || (now right).
Defined.

End ClaimsDocuments.

(** * Further properties of the generator *)

Section GeneratorMore.

Local Open Scope Z_scope.

(** The ranges of every outcome of the number generation. *)
Lemma synthesize_ranges_aux (operation_type : str) (max_stack_height : Z)
  (g : rng) (p : problem) (g' : rng) :
  synthesize operation_type max_stack_height g = Ok (p, g') ->
  (n_numbers p = 2
   /\ exists a b,
        numbers p = [a; b] /\ 10 <= a <= 999 /\ 1 <= b <= 99
        /\ (operators p = [lit "-"] -> b < a))
  \/ (n_numbers p <> 2 /\ Forall (fun x => 1 <= x <= 99) (numbers p)).
Proof.
  intros Hrun. unfold synthesize in Hrun. unfold bind at 1 in Hrun.
  destruct (randint 2 max_stack_height g) as [[n g1]|] eqn:E0; [|discriminate].
  destruct (Z.eqb_spec n 2) as [-> | Hn].
  - left. unfold bind at 1 in Hrun.
    destruct (randint 10 999 g1) as [[a g2]|] eqn:Ea; [|discriminate].
    unfold bind at 1 in Hrun.
    destruct (randint 1 99 g2) as [[b g3]|] eqn:Eb; [|discriminate].
    apply randint_range in Ea, Eb. unfold bind at 1 in Hrun.
    destruct ((if str_eqb operation_type (lit "minus") then ret true
               else if str_eqb operation_type (lit "mix")
                    then choice [true; false]
                    else ret false) g3) as [[sub g4]|]; [|discriminate].
    destruct sub.
    + unfold bind at 1 in Hrun. destruct (Z.leb_spec a b) as [Hle|Hgt].
      * unfold bind at 1 in Hrun.
        destruct (randint 10 50 g4) as [[r g5]|] eqn:Er; [|discriminate].
        apply randint_range in Er. cbn in Hrun. injection Hrun as <- _.
        cbn [n_numbers numbers operators]. split; [reflexivity|].
        exists (b + r), a. repeat split; try lia.
      * cbn in Hrun. injection Hrun as <- _.
        cbn [n_numbers numbers operators]. split; [reflexivity|].
        exists a, b. repeat split; try lia.
    + cbn in Hrun. injection Hrun as <- _.
      cbn [n_numbers numbers operators]. split; [reflexivity|].
      exists a, b. repeat split; try lia. intros H. discriminate.
  - right. unfold bind at 1 in Hrun.
    destruct (operands_loop (range n) [] g1) as (xs & g2 & E & Hlen & Hall).
    rewrite E in Hrun. cbn in Hrun. injection Hrun as <- _.
    cbn [n_numbers numbers operators]. now split.
Qed.

(** X1. In a generated problem with two operands and a subtraction the
    first operand is strictly greater than the second, and the second is
    at least 1: the difference shown is never zero or negative. *)
Theorem subtraction_strict
  (operation_type : str) (max_stack_height : Z) (g : rng)
  (p : problem) (g' : rng) :
  synthesize operation_type max_stack_height g = Ok (p, g') ->
  n_numbers p = 2 ->
  operators p = [lit "-"] ->
  exists a b, numbers p = [a; b] /\ 1 <= b /\ b < a.
Proof.
  intros H Hn Hop.
  destruct (synthesize_ranges_aux _ _ _ _ _ H)
    as [(_ & a & b & Hnum & _ & Hb & Hlt) | [Hne _]]; [|contradiction].
  exists a, b. repeat split; [exact Hnum | lia | now apply Hlt].
Qed.

Lemma subtraction_strict_witness :
  exists a b, [61; 10] = [a; b] /\ 1 <= b /\ b < a.
Proof.
  apply (subtraction_strict (lit "minus") 2
           (fun n => match n with 2%nat => 50 | _ => 0 end)
           (Problem 2 [61; 10] [lit "-"]) (fun _ => 0));
    reflexivity.
Defined.

(** The ranges of the operands, whatever their number. *)
Lemma synthesize_ranges
  (operation_type : str) (max_stack_height : Z) (g : rng)
  (p : problem) (g' : rng) :
  synthesize operation_type max_stack_height g = Ok (p, g') ->
  2 <= n_numbers p <= max_stack_height
  /\ len (numbers p) = n_numbers p
  /\ Forall (fun x => 1 <= x <= 999) (numbers p)
  /\ (3 <= n_numbers p -> Forall (fun x => 1 <= x <= 99) (numbers p)).
Proof.
  intros H. destruct (synthesize_cases _ _ _ _ _ H) as (Hr & Hlen & _ & _).
  split; [exact Hr|]. split; [now symmetry|].
  destruct (synthesize_ranges_aux _ _ _ _ _ H)
    as [(Hn & a & b & Hnum & Ha & Hb & _) | [Hne Hall]].
  - split; [|lia]. rewrite Hnum. repeat constructor; lia.
  - split; [|intros _; exact Hall].
    eapply Forall_impl; [|exact Hall]. cbn. intros; lia.
Qed.

(** X2. Every generated problem has between 2 and [max_stack_height]
    operands, as many as [n_numbers] says, all between 1 and 999; with
    three operands or more they are all between 1 and 99. *)
Theorem operand_ranges
  (operation_type : str) (max_stack_height : Z) (g : rng)
  (p : problem) (g' : rng) :
  synthesize operation_type max_stack_height g = Ok (p, g') ->
  2 <= n_numbers p <= max_stack_height
  /\ len (numbers p) = n_numbers p
  /\ Forall (fun x => 1 <= x <= 999) (numbers p)
  /\ (3 <= n_numbers p -> Forall (fun x => 1 <= x <= 99) (numbers p)).
Proof. exact (synthesize_ranges operation_type max_stack_height g p g'). Qed.

Lemma operand_ranges_witness :
  2 <= 3 <= 4
  /\ len [2; 2; 2] = 3
  /\ Forall (fun x => 1 <= x <= 999) [2; 2; 2]
  /\ (3 <= 3 -> Forall (fun x => 1 <= x <= 99) [2; 2; 2]).
Proof.
  apply (operand_ranges (lit "plus") 4 (fun _ => 1)
           (Problem 3 [2; 2; 2] [lit "+"; lit "+"]) (fun _ => 1)).
  reflexivity.
Defined.

(** X3. With a bound of two operands the generator never fails, whatever
    the mode string and the draws. *)
Theorem generate_total_at_two (operation_type : str) (g : rng) :
  exists s g', generate_problem_latex operation_type 2 g = Ok (s, g').
Proof.
  unfold generate_problem_latex, bind, lift.
  destruct (synthesize_total operation_type 2 g) as (p & g1 & E); [lia|].
  rewrite E. destruct (synthesize_cases _ _ _ _ _ E) as (Hn & Hlen & _ & Hops).
  destruct (serialize_total p) as [s Hs].
  - exact Hlen.
  - intros H0. rewrite H0 in Hlen. cbn in Hlen. lia.
  - destruct Hops as [(_ & a & b & o & _ & -> & _) | [Hne _]];
      [discriminate | lia].
  - rewrite Hs. eauto.
Qed.

(** X4. A bound below two is a [ValueError] of the first draw, in every
    mode. *)
Theorem generate_bound_below_two
  (operation_type : str) (max_stack_height : Z) (g : rng) :
  max_stack_height < 2 ->
  generate_problem_latex operation_type max_stack_height g
  = Raise ValueError.
Proof.
  intros H. unfold generate_problem_latex, synthesize, bind, randint.
  assert (E : (max_stack_height <? 2) = true) by (apply Z.ltb_lt; lia).
  now rewrite E.
Qed.

Lemma generate_bound_below_two_witness :
  generate_problem_latex (lit "plus") 1 (fun _ => 0) = Raise ValueError.
Proof. apply generate_bound_below_two. lia. Defined.

(** X5. In the [plus] and [mix] modes the generator succeeds for every
    bound of at least two and every sequence of draws. *)
Theorem generate_plus_mix_succeeds
  (operation_type : str) (max_stack_height : Z) (g : rng) :
  operation_type = lit "plus" \/ operation_type = lit "mix" ->
  2 <= max_stack_height ->
  exists s g',
    generate_problem_latex operation_type max_stack_height g = Ok (s, g').
Proof. apply generate_total_plus_mix. Qed.

Lemma generate_plus_mix_succeeds_witness :
  exists s g', generate_problem_latex (lit "mix") 4 (fun _ => 1) = Ok (s, g').
Proof.
  apply generate_plus_mix_succeeds; [now right | lia].
Defined.

End GeneratorMore.

(** * Further properties of the documents *)

Section DocumentsMore.

Local Open Scope Z_scope.








Lemma str_len_bound (x : Z) :
  1 <= x <= 999 -> 1 <= len (str_of_int x) <= 3.
Proof.
  intros H.
  assert (Hall : forallb
                   (fun k => let n := len (str_of_int (Z.of_nat k)) in
                             (1 <=? n) && (n <=? 3))
                   (seq 1 999) = true) by (vm_compute; reflexivity).
  rewrite forallb_forall in Hall.
  specialize (Hall (Z.to_nat x)).
  rewrite Z2Nat.id in Hall by lia. cbv zeta in Hall.
  assert (Hin : In (Z.to_nat x) (seq 1 999)) by (apply in_seq; lia).
  apply Hall in Hin. apply andb_true_iff in Hin as [H1 H2].
  apply Z.leb_le in H1, H2. lia.
Qed.

(** The blocks that the generator returns. *)
Lemma generated_shape (operation_type : str) (max_stack_height : Z)
  (b : str) :
  generated operation_type max_stack_height b ->
  exists init op last,
    is_sign op = true /\ b = block_text init op last
    /\ Forall (fun x => 1 <= x <= 999) (init ++ [last])
    /\ 2 <= len (init ++ [last]) <= max_stack_height.
Proof.
  intros (g & g' & H). unfold generate_problem_latex, bind, lift in H.
  destruct (synthesize operation_type max_stack_height g) as [[p g1]|] eqn:E;
    [|discriminate].
  destruct (serialize p) as [s|] eqn:Es; [|discriminate].
  injection H as <- _.
  destruct (synthesize_ranges _ _ _ _ _ E) as (Hr & Hlen & Hall & _).
  destruct (synthesize_well_formed _ _ _ _ _ E) as [[Hn Hops] _].
  destruct (serialize_ok_inv p s Hn Es)
    as (init & last & ops & op & Hnum & Ho & ->).
  exists init, op, last. rewrite <- Hnum. repeat split; try assumption; try lia.
  rewrite Ho in Hops. apply Forall_app in Hops as [_ Hops].
  now inversion Hops.
Qed.

Lemma generated_cell (operation_type : str) (max_stack_height : Z)
  (b : str) :
  generated operation_type max_stack_height b -> cell_ok b.
Proof.
  intros (g & g' & H). apply wf_block_cell.
  now apply generated_wf_block in H.
Qed.

Lemma operand_width_bounds (init : list Z) (m : Z) :
  0 <= m <= 3 ->
  Forall (fun x => 1 <= x <= 999) init ->
  m <= fold_left operand_width init m <= 3.
Proof.
  intros Hm H. revert m Hm. induction H as [|x init Hx _ IH]; intros m Hm.
  - simpl. lia.
  - cbn [fold_left].
    assert (Hw : Z.max m 1 <= operand_width m x <= 3).
    { unfold operand_width. rewrite Z.abs_eq by lia.
      pose proof (str_len_bound x Hx). lia. }
    specialize (IH (operand_width m x)). lia.
Qed.

(** The layout of a generated block. *)
Lemma generated_layout (operation_type : str) (max_stack_height : Z)
  (b : str) :
  generated operation_type max_stack_height b ->
  exists lay,
    parse_block (array_of b) = Ok lay
    /\ 2 <= len (filter is_number (lines lay)) <= max_stack_height
    /\ length (filter is_hline (lines lay)) = 1%nat
    /\ has_operator lay = true
    /\ operator_col_width lay = 2
    /\ 1 <= number_width lay <= 3
    /\ final_display_width lay = 5.
Proof.
  intros H.
  destruct (generated_shape _ _ _ H)
    as (init & op & last & Hop & -> & Hall & Hlen).
  unfold array_of. destruct (block_array_span init op last) as [-> _].
  rewrite parse_block_shape by exact Hop. cbv zeta. eexists.
  split; [reflexivity|].
  cbn [lines has_operator operator_col_width number_width
       final_display_width].
  apply Forall_app in Hall as [Hinit Hlast]. inversion Hlast as [|? ? Hl _].
  pose proof (operand_width_bounds init 0 ltac:(lia) Hinit) as Hw.
  pose proof (str_len_bound last Hl) as Hs.
  destruct (operand_lines_number init) as [Hf1 Hf2].
  rewrite !filter_app, Hf1, Hf2. cbn [filter is_number is_hline app].
  unfold len in *. rewrite length_app, length_map. rewrite length_app in Hlen.
  cbn [length] in *. repeat split; try lia.
Qed.

Lemma row_loop_generated {A} (operation_type : str) (max_stack_height : Z)
  (l : list A) (acc : list str) (g : rng) (res : list str) (g' : rng) :
  for_each l
    (fun _ row_problems =>
       p <- generate_problem_latex operation_type max_stack_height ;;
       ret (row_problems ++ [p])) acc g
  = Ok (res, g') ->
  exists ps,
    res = acc ++ ps /\ length ps = length l
    /\ Forall (generated operation_type max_stack_height) ps.
Proof.
  revert acc g. induction l as [|a l IH]; intros acc g H.
  - cbn in H. injection H as <- _. exists []. rewrite app_nil_r.
    now repeat split.
  - cbn [for_each] in H. unfold bind at 1 in H. unfold bind at 1 in H.
    destruct (generate_problem_latex operation_type max_stack_height g)
      as [[b g1]|] eqn:E; [|discriminate].
    unfold ret at 1 in H. apply IH in H as (ps & -> & Hlen & Hall).
    exists (b :: ps). repeat split.
    + now rewrite <- app_assoc.
    + simpl. now rewrite Hlen.
    + constructor; [now exists g, g1 | exact Hall].
Qed.

Lemma rows_loop_generated (operation_type : str) (c R max_stack_height : Z)
  (l : list Z) (acc : list str) (g : rng) (res : list str) (g' : rng) :
  for_each l
    (fun r problems_content =>
       row_problems <-
         for_each (range c)
           (fun _ row_problems =>
              p <- generate_problem_latex operation_type max_stack_height ;;
              ret (row_problems ++ [p])) [] ;;
       ret (problems_content ++ [row_text R r row_problems])) acc g
  = Ok (res, g') ->
  exists rows,
    res = acc ++ map (fun ir => row_text R (fst ir) (snd ir)) (combine l rows)
    /\ length rows = length l
    /\ Forall (fun row =>
                 length row = Z.to_nat c
                 /\ Forall (generated operation_type max_stack_height) row)
         rows.
Proof.
  revert acc g. induction l as [|r l IH]; intros acc g H.
  - cbn in H. injection H as <- _. exists []. rewrite app_nil_r.
    now repeat split.
  - cbn [for_each] in H. unfold bind at 1 in H. unfold bind at 1 in H.
    match type of H with
    | context [for_each (range c) ?body [] g] =>
        destruct (for_each (range c) body [] g) as [[row g1]|] eqn:E;
          [|discriminate]
    end.
    unfold ret at 1 in H. apply IH in H as (rows & -> & Hlen & Hall).
    apply row_loop_generated in E as (ps & -> & Hps & Hwf). cbn [app] in *.
    exists (ps :: rows). repeat split.
    + now rewrite <- app_assoc.
    + simpl. now rewrite Hlen.
    + constructor; [|exact Hall]. split; [|exact Hwf].
      now rewrite Hps, range_length.
Qed.

Lemma document_grid_generated (operation_type : str)
  (c R max_stack_height : Z) (g : rng) (doc : str) (g' : rng) :
  generate_latex_document operation_type c R max_stack_height g
  = Ok (doc, g') ->
  exists rows,
    doc = header c
          ++ concat (map (fun ir => row_text R (fst ir) (snd ir))
                       (combine (range R) rows))
          ++ footer
    /\ length rows = Z.to_nat R
    /\ Forall (fun row =>
                 length row = Z.to_nat c
                 /\ Forall (generated operation_type max_stack_height) row)
         rows.
Proof.
  unfold generate_latex_document. unfold bind at 1. intros H.
  match type of H with
  | context [for_each (range R) ?body [] g] =>
      destruct (for_each (range R) body [] g) as [[content g1]|] eqn:E;
        [|discriminate]
  end.
  cbn in H. injection H as <- _.
  apply rows_loop_generated in E as (rows & -> & Hlen & Hall). cbn [app].
  exists rows. repeat split; [|exact Hall]. now rewrite Hlen, range_length.
Qed.

(** X8. The whole text pipeline on a generated document: extraction
    finds as many blocks as rows times cells per row, a negative count
    standing for none, and every one of them parses into between 2 and
    [max_stack_height] Number lines and one rule, with the operator
    column, a number width between 1 and 3 and a rule width of exactly
    5. *)
Theorem generated_document_pipeline
  (operation_type : str) (c R max_stack_height : Z) (g : rng)
  (doc : str) (g' : rng) :
  generate_latex_document operation_type c R max_stack_height g
  = Ok (doc, g') ->
  len (math_blocks doc) = Z.max R 0 * Z.max c 0
  /\ Forall
       (fun b =>
          exists lay,
            parse_block b = Ok lay
            /\ 2 <= len (filter is_number (lines lay)) <= max_stack_height
            /\ length (filter is_hline (lines lay)) = 1%nat
            /\ has_operator lay = true
            /\ operator_col_width lay = 2
            /\ 1 <= number_width lay <= 3
            /\ final_display_width lay = 5)
       (math_blocks doc).
Proof.
  intros H.
  apply document_grid_generated in H as (rows & -> & Hlen & Hall).
  assert (Hcomb : map snd (combine (range R) rows) = rows)
    by (apply snd_combine; now rewrite range_length).
  rewrite math_blocks_grid.
  - rewrite Hcomb. split.
    + unfold len. rewrite length_map.
      rewrite (length_concat_const (Z.to_nat c)).
      * rewrite Hlen. lia.
      * eapply Forall_impl; [|exact Hall]. cbn. now intros row [Hr _].
    + apply Forall_map, Forall_concat.
      eapply Forall_impl; [|exact Hall]. cbn. intros row [_ Hr].
      eapply Forall_impl; [|exact Hr]. cbn. intros b Hb.
      now apply generated_layout with operation_type.
  - apply Forall_forall. intros [i row] Hin. simpl.
    apply in_combine_r in Hin. rewrite Forall_forall in Hall.
    destruct (Hall _ Hin) as [_ Hr].
    eapply Forall_impl; [|exact Hr]. intros b. apply generated_cell.
Qed.

Lemma generated_document_pipeline_witness :
  exists doc,
    len (math_blocks doc) = Z.max 2 0 * Z.max 3 0
    /\ Forall
         (fun b =>
            exists lay,
              parse_block b = Ok lay
              /\ 2 <= len (filter is_number (lines lay)) <= 4
              /\ length (filter is_hline (lines lay)) = 1%nat
              /\ has_operator lay = true
              /\ operator_col_width lay = 2
              /\ 1 <= number_width lay <= 3
              /\ final_display_width lay = 5)
         (math_blocks doc).
Proof.
  destruct (generate_latex_document (lit "mix") 3 2 4 (fun n => Z.of_nat n))
    as [[doc g']|] eqn:E; [|vm_compute in E; discriminate].
  exists doc.
  apply (generated_document_pipeline (lit "mix") 3 2 4
           (fun n => Z.of_nat n) doc g' E).
Defined.

End DocumentsMore.

(** * Further properties of the extraction *)

Section ExtractionMore.

Local Open Scope Z_scope.

(** X9. The array pattern of the extraction accepts a span exactly when
    the trimmed span starts with [\begin{array}], ends with [\end{array}]
    and is at least as long as the two together; the block kept is then
    the trimmed span. *)
Theorem array_pattern_characterised (raw_expr : str) :
  search array_re raw_expr
  = if startswith (strip raw_expr) (lit "\begin{array}")
       && endswith (strip raw_expr) (lit "\end{array}")
       && (24 <=? length (strip raw_expr))%nat
    then Some (strip raw_expr)
    else None.
Proof. exact (array_search_spec raw_expr). Qed.

(** X10. When the narrowed content is made of the dollar spans
    [x1 ... xn], separated by texts without a dollar sign, extraction
    returns the spans that pass the array filter, trimmed, in the order of
    the text. *)
Theorem extraction_filters_spans (latex_content : str) (xs : list str) :
  Spans (narrow latex_content) xs ->
  math_blocks latex_content
  = map strip
      (filter
         (fun x =>
            match search array_re x with Some _ => true | None => false end)
         xs).
Proof.
  intros H. rewrite (math_blocks_Spans _ _ H). f_equal.
  apply filter_ext. intros x. rewrite array_search_spec.
  now destruct (is_array_span x).
Qed.

Lemma extraction_filters_spans_witness :
  math_blocks (lit "a $\begin{array}{r}1\end{array} $ b $x+y$ c")
  = map strip
      (filter
         (fun x =>
            match search array_re x with Some _ => true | None => false end)
         [lit "\begin{array}{r}1\end{array} "; lit "x+y"]).
Proof.
  apply extraction_filters_spans.
  rewrite narrow_plain by reflexivity.
  apply (Spans_cons (lit "a ") (lit "\begin{array}{r}1\end{array} ")
           (lit " b $x+y$ c") [lit "x+y"]); try reflexivity.
  apply (Spans_cons (lit " b ") (lit "x+y") (lit " c") []); try reflexivity.
  now apply Spans_gap.
Defined.

(** X11. A content in which neither [\begin{document}] nor
    [\begin{tabular}] occurs is searched for blocks as a whole: the two
    narrowing steps leave it unchanged. *)
Theorem narrow_without_wrappers (latex_content : str) :
  occurs (lit "\begin{document}") latex_content = false ->
  occurs (lit "\begin{tabular}") latex_content = false ->
  narrow latex_content = latex_content.
Proof.
  intros Hd Ht. unfold narrow, search. cbv zeta.
  change document_re
    with (chars (lit "\begin{document}")
          ++ [Open; Lazy Dot; Close] ++ chars (lit "\end{document}")).
  rewrite search_from_absent by exact Hd.
  change tabular_re
    with (chars (lit "\begin{tabular}")
          ++ [Char 123%N; Lazy Dot; Char 125%N]
          ++ [Greedy Space; Open; Lazy Dot; Close; Greedy Space]
          ++ chars (lit "\end{tabular}")).
  now rewrite search_from_absent by exact Ht.
Qed.

Lemma narrow_without_wrappers_witness :
  narrow (lit "\end{document} $1$ \begin{array}")
  = lit "\end{document} $1$ \begin{array}".
Proof. apply narrow_without_wrappers; reflexivity. Defined.

(** X12. On a document as [generate_latex_document] builds it, the
    narrowing keeps more than the rows: the interior of the tabular begins
    with the rest of the column specification, [{c}}] and a line break,
    because the lazy [\{.*?\}] of the pattern stops at the first closing
    brace of [{*{5}{c}}]. *)
Theorem narrow_keeps_column_spec_tail (c : Z) (X : str) :
  free (lit "\end{document}") X = true ->
  free (lit "\end{tabular}") X = true ->
  narrow (header c ++ X ++ footer) = rstrip (lit "{c}}" ++ [NL] ++ X).
Proof. exact (narrow_document c X). Qed.

Lemma narrow_keeps_column_spec_tail_witness :
  narrow (header 5 ++ lit "$1$ & $2$ " ++ footer)
  = rstrip (lit "{c}}" ++ [NL] ++ lit "$1$ & $2$ ").
Proof. apply narrow_keeps_column_spec_tail; reflexivity. Defined.

Lemma lazy_star_lacks (cap grp u : str) (j : nat) :
  lacks dollar u = true ->
  lazy_star (in_class Dot) (rmatch [Close; Char dollar] cap grp) u j = None.
Proof.
  revert j. induction u as [|a u IH]; intros j H; [reflexivity|].
  rewrite lacks_cons in H. apply andb_true_iff in H as [Ha Hu].
  apply negb_true_iff in Ha.
  cbn [lazy_star rmatch in_class]. rewrite Ha. now apply IH.
Qed.

Lemma findall_go_unmatched (u : str) (i : nat) :
  lacks dollar u = true -> findall_go math_re 0 (dollar :: u) i = [].
Proof.
  intros Hu.
  change (findall_go math_re 0 (dollar :: u) i) with
    (match rmatch math_re [] [] (dollar :: u) i with
     | Some (g, e) => g :: findall_go math_re (e - i - 1) u (S i)
     | None => findall_go math_re 0 u (S i)
     end).
  change (rmatch math_re [] [] (dollar :: u) i)
    with (lazy_star (in_class Dot) (rmatch [Close; Char dollar] u [])
            u (S i)).
  rewrite lazy_star_lacks by exact Hu. now apply findall_go_nodollar.
Qed.

(** X13. A dollar sign without a partner contributes nothing: after the
    spans of the text, one more dollar sign followed by a text without
    dollar leaves the result of [findall] unchanged. *)
Theorem unmatched_dollar_ignored (T u : str) (xs : list str) :
  Spans T xs -> lacks dollar u = true ->
  findall math_re (T ++ dollar :: u) = xs.
Proof.
  intros H Hu. unfold findall.
  enough (Hgen : forall i, findall_go math_re 0 (T ++ dollar :: u) i = xs)
    by apply Hgen.
  induction H as [g Hg | g x t xs Hg Hx Ht IH]; intros i.
  - rewrite findall_go_gap by exact Hg.
    apply findall_go_unmatched. exact Hu.
  - rewrite <- app_assoc. cbn [app]. rewrite <- app_assoc. cbn [app].
    rewrite findall_go_gap by exact Hg.
    rewrite findall_go_span by exact Hx. f_equal. apply IH.
Qed.

Lemma unmatched_dollar_ignored_witness :
  findall math_re (lit "a $x$ b" ++ dollar :: lit " c") = [lit "x"].
Proof.
  apply unmatched_dollar_ignored; [|reflexivity].
  apply (Spans_cons (lit "a ") (lit "x") (lit " b") []); try reflexivity.
  now apply Spans_gap.
Defined.

(** X14. A raw line in which [\hline] occurs becomes a rule whatever else
    it holds: the rest of the line is dropped, the width and the operator
    flag are left as they are. *)
Theorem hline_line_is_rule (line_content : str) (st : parse_state) :
  occurs (lit "\hline") line_content = true ->
  parse_line line_content st
  = Ok (ParseState (parsed_lines_data st ++ [Hline])
          (max_number_part_len st) (has_operator_column st)).
Proof. exact (parse_line_hline line_content st). Qed.

Lemma hline_line_is_rule_witness :
  parse_line (lit " +12 \hline 7 ") (ParseState [] 0 false)
  = Ok (ParseState ([] ++ [Hline]) 0 false).
Proof.
  apply (hline_line_is_rule (lit " +12 \hline 7 ") (ParseState [] 0 false)).
  reflexivity.
Defined.

End ExtractionMore.

(** * Further properties of the parsing loop and of the aligned lines *)

Section Rendering.

Local Open Scope Z_scope.

Lemma existsb_snoc {A} (f : A -> bool) (l : list A) (a : A) :
  existsb f (l ++ [a]) = existsb f l || f a.
Proof. rewrite existsb_app. cbn. now rewrite orb_false_r. Qed.

Lemma in_snoc_number (l : list parsed_line) (x : parsed_line)
  (o ns : str) :
  In (Number o ns) (l ++ [x]) -> In (Number o ns) l \/ x = Number o ns.
Proof.
  intros H. apply in_app_or in H as [H|[H|[]]]; [now left | now right].
Qed.

Lemma startswith_one (s : str) (c : char) :
  startswith s [c] = true -> exists t, s = c :: t.
Proof.
  destruct s as [|a t]; [discriminate|]. cbn [startswith].
  rewrite andb_true_r. intros H. apply N.eqb_eq in H. subst a. now exists t.
Qed.

Lemma parse_inv_number (st : parse_state) (o ns : str) (has_op : bool) :
  parse_inv st ->
  line_ok (Number o ns) ->
  has_op = has_operator_column st || has_sign (Number o ns) ->
  parse_inv
    (ParseState (parsed_lines_data st ++ [Number o ns])
       (Z.max (max_number_part_len st) (len ns)) has_op).
Proof.
  intros (Hle & Hmax & Hop & Hok) Hline Hhas. unfold parse_inv.
  cbn [parsed_lines_data max_number_part_len has_operator_column].
  split; [|split; [|split]].
  - intros o' ns' Hin. apply in_snoc_number in Hin as [Hin|Heq].
    + specialize (Hle _ _ Hin). lia.
    + injection Heq as _ <-. lia.
  - right. destruct (Z.max_spec (max_number_part_len st) (len ns))
      as [[Hlt ->] | [Hge ->]].
    + exists o, ns. split; [|reflexivity]. apply in_or_app. right. now left.
    + destruct Hmax as [H0 | (o' & ns' & Hin & Hlen)].
      * exists o, ns. split; [apply in_or_app; right; now left|].
        unfold len in *. lia.
      * exists o', ns'. split; [|exact Hlen]. apply in_or_app. now left.
  - rewrite existsb_snoc, <- Hop. exact Hhas.
  - apply Forall_app. split; [exact Hok|]. now constructor.
Qed.

(** One iteration of the parsing loop never raises and keeps the
    invariant. *)
Lemma parse_line_keeps (line : str) (st : parse_state) :
  parse_inv st ->
  exists st', parse_line line st = Ok st' /\ parse_inv st'.
Proof.
  intros Hinv. unfold parse_line. cbv zeta.
  destruct (strip line) as [|c t] eqn:E.
  - now exists st.
  - destruct (search hline_re (c :: t)).
    + eexists. split; [reflexivity|].
      destruct Hinv as (Hle & Hmax & Hop & Hok). unfold parse_inv.
      cbn [parsed_lines_data max_number_part_len has_operator_column].
      split; [|split; [|split]].
      * intros o ns Hin. apply in_snoc_number in Hin as [Hin|Heq];
          [now apply Hle in Hin | discriminate].
      * destruct Hmax as [H0 | (o & ns & Hin & Hlen)]; [now left|].
        right. exists o, ns. split; [|exact Hlen]. apply in_or_app. now left.
      * rewrite existsb_snoc. cbn [has_sign]. now rewrite orb_false_r.
      * apply Forall_app. split; [exact Hok|]. now repeat constructor.
    + destruct (startswith (c :: t) (lit "+")) eqn:Hp;
        [|destruct (startswith (c :: t) (lit "-")) eqn:Hm].
      * cbn [orb].
        change (getitem (c :: t) 0) with (getitem (c :: t) (Z.of_nat 0)).
        rewrite (getitem_nat (c :: t) 0 c eq_refl). cbn [rbind tl].
        eexists. split; [reflexivity|].
        apply startswith_one in Hp as [t' Hp]. injection Hp as -> _.
        apply parse_inv_number; [exact Hinv | |].
        -- cbn. split; [now left | apply strip_idem].
        -- cbn [has_sign]. now rewrite orb_true_r.
      * cbn [orb].
        change (getitem (c :: t) 0) with (getitem (c :: t) (Z.of_nat 0)).
        rewrite (getitem_nat (c :: t) 0 c eq_refl). cbn [rbind tl].
        eexists. split; [reflexivity|].
        apply startswith_one in Hm as [t' Hm]. injection Hm as -> _.
        apply parse_inv_number; [exact Hinv | |].
        -- cbn. split; [now right | apply strip_idem].
        -- cbn [has_sign]. now rewrite orb_true_r.
      * cbn [orb rbind]. eexists. split; [reflexivity|].
        apply parse_inv_number; [exact Hinv | |].
        -- cbn [line_ok]. repeat split; try assumption; [discriminate|].
           rewrite <- E. apply strip_idem.
        -- cbn [has_sign]. now rewrite orb_false_r.
Qed.

Lemma parse_lines_keep (raw_lines : list str) (st : parse_state) :
  parse_inv st ->
  exists st',
    rfor_each raw_lines (fun line st => parse_line line st) st = Ok st'
    /\ parse_inv st'.
Proof.
  revert st. induction raw_lines as [|line raw_lines IH]; intros st Hinv.
  - now exists st.
  - cbn [rfor_each].
    destruct (parse_line_keeps line st Hinv) as (st1 & -> & H1). cbn [rbind].
    now apply IH.
Qed.

Lemma parse_inv_init : parse_inv (ParseState [] 0 false).
Proof.
  unfold parse_inv. cbn. repeat split; [intros ? ? [] | now left | constructor].
Qed.

(** Every block is parsed, and the layout is read off a final state of
    the loop that satisfies the invariant. *)
Lemma parse_block_state (latex_block : str) :
  exists st,
    parse_inv st
    /\ parse_block latex_block
       = Ok (Layout (parsed_lines_data st) (max_number_part_len st)
               (has_operator_column st)
               (if has_operator_column st then 2 else 0)
               (Z.max (max_number_part_len st
                       + (if has_operator_column st then 2 else 0)) 5)).
Proof.
  unfold parse_block. cbv zeta.
  change (lit "\\") with [92%N; 92%N]. cbn [split rbind].
  match goal with
  | |- context [rfor_each ?l _ ?st] =>
      destruct (parse_lines_keep l st parse_inv_init) as (st' & -> & Hinv)
  end.
  cbn [rbind]. now exists st'.
Qed.

(** X15. For every block the width of the number column is the length of
    the longest number text among the parsed lines (0 when there is
    none), and the operator column is present exactly when some parsed
    line carries a sign. *)
Theorem number_width_is_longest (latex_block : str) (lay : layout) :
  parse_block latex_block = Ok lay ->
  (forall o ns, In (Number o ns) (lines lay) -> len ns <= number_width lay)
  /\ (number_width lay = 0
      \/ exists o ns,
           In (Number o ns) (lines lay) /\ len ns = number_width lay)
  /\ has_operator lay = existsb has_sign (lines lay).
Proof.
  intros H. destruct (parse_block_state latex_block) as (st & Hinv & E).
  rewrite E in H. injection H as <-.
  cbn [lines number_width has_operator].
  destruct Hinv as (Hle & Hmax & Hop & _). now repeat split.
Qed.

Lemma number_width_is_longest_witness :
  exists lay,
    parse_block (lit "\begin{array}{r} 7 \\ +123 \\ \hline \end{array}")
    = Ok lay
    /\ (forall o ns, In (Number o ns) (lines lay) -> len ns <= number_width lay)
    /\ (number_width lay = 0
        \/ exists o ns,
             In (Number o ns) (lines lay) /\ len ns = number_width lay)
    /\ has_operator lay = existsb has_sign (lines lay).
Proof.
  eexists. split; [vm_compute; reflexivity|].
  apply (number_width_is_longest
           (lit "\begin{array}{r} 7 \\ +123 \\ \hline \end{array}")).
  vm_compute. reflexivity.
Defined.

(** X16. The parsed lines of every block are rules or numbers of two
    kinds: without operator, and then the number text is the trimmed
    line, not empty and not starting with a sign; or with the one
    character [+] or [-] as operator and a trimmed number text, which may
    be empty. *)
Theorem parsed_lines_shape (latex_block : str) (lay : layout) :
  parse_block latex_block = Ok lay ->
  Forall
    (fun l =>
       match l with
       | Hline => True
       | Number [] ns =>
           ns <> [] /\ strip ns = ns
           /\ startswith ns (lit "+") = false
           /\ startswith ns (lit "-") = false
       | Number o ns => (o = lit "+" \/ o = lit "-") /\ strip ns = ns
       end)
    (lines lay).
Proof.
  intros H. destruct (parse_block_state latex_block) as (st & Hinv & E).
  rewrite E in H. injection H as <-. cbn [lines].
  destruct Hinv as (_ & _ & _ & Hok). exact Hok.
Qed.

Lemma parsed_lines_shape_witness :
  exists lay,
    parse_block (lit "\begin{array}{r} 7 \\ - \\ \hline \end{array}")
    = Ok lay
    /\ Forall
         (fun l =>
            match l with
            | Hline => True
            | Number [] ns =>
                ns <> [] /\ strip ns = ns
                /\ startswith ns (lit "+") = false
                /\ startswith ns (lit "-") = false
            | Number o ns => (o = lit "+" \/ o = lit "-") /\ strip ns = ns
            end)
         (lines lay).
Proof.
  eexists. split; [vm_compute; reflexivity|].
  apply (parsed_lines_shape
           (lit "\begin{array}{r} 7 \\ - \\ \hline \end{array}")).
  vm_compute. reflexivity.
Defined.

Lemma len_app {A} (a b : list A) : len (a ++ b) = len a + len b.
Proof. unfold len. rewrite length_app. lia. Qed.

Lemma len_rjust (s : str) (width : Z) :
  len (rjust s width) = Z.max width (len s).
Proof.
  unfold rjust. rewrite len_app. unfold len. rewrite repeat_length. lia.
Qed.

Lemma len_str_mul_one (c : char) (n : Z) :
  len (str_mul [c] n) = Z.max n 0.
Proof.
  unfold str_mul, len.
  assert (H : forall k, length (concat (repeat [c] k)) = k).
  { induction k as [|k IH]; [reflexivity|]. cbn. now rewrite IH. }
  rewrite H. lia.
Qed.

(** X17. The aligned lines of every block: each number line is exactly
    as long as the number column and the operator column together, each
    rule is as long as the display width, which is at least 5 and at
    least the length of the number lines. *)
Theorem aligned_lines_widths (latex_block : str) (lay : layout) :
  parse_block latex_block = Ok lay ->
  Forall
    (fun l =>
       len (aligned_line (number_width lay) (has_operator lay)
              (final_display_width lay) l)
       = if is_hline l then final_display_width lay
         else number_width lay + operator_col_width lay)
    (lines lay)
  /\ 5 <= final_display_width lay
  /\ number_width lay + operator_col_width lay <= final_display_width lay.
Proof.
  intros H. destruct (parse_block_state latex_block) as (st & Hinv & E).
  rewrite E in H. injection H as <-.
  cbn [lines number_width has_operator operator_col_width
       final_display_width].
  destruct Hinv as (Hle & _ & Hop & Hok).
  split; [|lia]. apply Forall_forall. intros l Hin.
  rewrite Forall_forall in Hok. specialize (Hok l Hin).
  destruct l as [|o ns]; cbn [aligned_line is_hline].
  - change (lit "-") with [45%N]. rewrite len_str_mul_one. lia.
  - cbv zeta. rewrite len_app, len_rjust.
    specialize (Hle o ns Hin). rewrite Z.max_l by exact Hle.
    destruct (has_operator_column st) eqn:Hc.
    + destruct o as [|c o].
      * change (len (lit "  ")) with 2. lia.
      * cbn [line_ok] in Hok. destruct Hok as [[-> | ->] _].
        -- change (len (lit "+" ++ lit " ")) with 2. lia.
        -- change (len (lit "-" ++ lit " ")) with 2. lia.
    + change (len (@nil char)) with 0. lia.
Qed.

Lemma aligned_lines_widths_witness :
  exists lay,
    parse_block (lit "\begin{array}{r} 7 \\ +12345 \\ \hline \end{array}")
    = Ok lay
    /\ Forall
         (fun l =>
            len (aligned_line (number_width lay) (has_operator lay)
                   (final_display_width lay) l)
            = if is_hline l then final_display_width lay
              else number_width lay + operator_col_width lay)
         (lines lay)
    /\ 5 <= final_display_width lay
    /\ number_width lay + operator_col_width lay <= final_display_width lay.
Proof.
  eexists. split; [vm_compute; reflexivity|].
  apply (aligned_lines_widths
           (lit "\begin{array}{r} 7 \\ +12345 \\ \hline \end{array}")).
  vm_compute. reflexivity.
Defined.

Lemma rendered_loop (blocks : list str) (acc : list str) :
  exists texts,
    rfor_each blocks
      (fun latex_block texts =>
         t <-? simplified_latex_block latex_block ;; Ok (texts ++ [t]))
      acc
    = Ok (acc ++ texts)
    /\ length texts = length blocks.
Proof.
  revert acc. induction blocks as [|b blocks IH]; intros acc.
  - exists []. now rewrite app_nil_r.
  - cbn [rfor_each]. unfold simplified_latex_block at 1.
    destruct (parse_block_state b) as (st & _ & ->). cbn [rbind].
    match goal with
    | |- context [acc ++ [?t]] =>
        destruct (IH (acc ++ [t])) as (texts & -> & Hlen);
          exists (t :: texts)
    end.
    rewrite <- app_assoc. cbn [app length]. now rewrite Hlen.
Qed.

(** X18. The text stage never raises, whatever the file holds: every
    extracted block gets its text, one per block. In particular the
    index [number_string[0]] is only evaluated on a non-empty string. *)
Theorem rendered_blocks_total (latex_content : str) :
  exists texts,
    rendered_blocks latex_content = Ok texts
    /\ length texts = length (math_blocks latex_content).
Proof.
  unfold rendered_blocks.
  destruct (rendered_loop (math_blocks latex_content) [])
    as (texts & E & Hlen).
  exists texts. now split.
Qed.

Lemma longest_snoc (xs : list Z) (x : Z) :
  longest (xs ++ [x]) = Z.max (longest xs) (len (str_of_int x)).
Proof.
  unfold longest. induction xs as [|a xs IH]; cbn [app fold_right].
  - unfold len. lia.
  - rewrite IH. lia.
Qed.

Lemma operand_width_longest (init : list Z) (m : Z) :
  0 <= m ->
  Forall (fun x => 0 <= x) init ->
  fold_left operand_width init m = Z.max m (longest init).
Proof.
  intros Hm H. revert m Hm. induction H as [|x init Hx _ IH]; intros m Hm.
  - cbn. lia.
  - cbn [fold_left]. rewrite IH by (unfold operand_width; lia).
    unfold operand_width, longest.
    cbn [fold_right]. rewrite Z.abs_eq by exact Hx. lia.
Qed.

Lemma longest_nonneg (xs : list Z) : 0 <= longest xs.
Proof.
  unfold longest. induction xs as [|a xs IH]; cbn [fold_right]; lia.
Qed.

Lemma serialized_layout (init : list Z) (op : str) (last : Z) :
  is_sign op = true ->
  Forall (fun x => 0 <= x) (init ++ [last]) ->
  parse_block (array_text init op last)
  = let w := longest (init ++ [last]) in
    Ok (Layout
          (map (fun x => Number [] (str_of_int x)) init
           ++ [Number op (str_of_int last); Hline])
          w true 2 (Z.max (w + 2) 5)).
Proof.
  intros Hop Hall. rewrite parse_block_shape by exact Hop. cbv zeta.
  apply Forall_app in Hall as [Hinit _].
  rewrite operand_width_longest by (lia || exact Hinit).
  rewrite longest_snoc. pose proof (longest_nonneg init) as Hn.
  rewrite (Z.max_r 0 (longest init)) by exact Hn.
  do 3 f_equal. apply map_ext_in. intros x Hin.
  rewrite Forall_forall in Hinit. specialize (Hinit x Hin).
  unfold operand_line. destruct (Z.ltb_spec x 0); [lia | reflexivity].
Qed.

(** X19. For every well-formed problem with non-negative operands that
    serializes, the number column of its block is as wide as the longest
    operand in decimal, and the display width is that plus the two
    characters of the operator column, and at least 5. *)
Theorem serialized_widths (p : problem) (s : str) :
  well_formed p ->
  Forall (fun x => 0 <= x) (numbers p) ->
  serialize p = Ok s ->
  exists b lay,
    math_blocks s = [b]
    /\ parse_block b = Ok lay
    /\ number_width lay = longest (numbers p)
    /\ final_display_width lay = Z.max (longest (numbers p) + 2) 5.
Proof.
  intros [Hn Hops] Hpos Hs.
  destruct (serialize_ok_inv p s Hn Hs)
    as (init & last & ops & op & Hnum & Ho & ->).
  assert (Hop : is_sign op = true).
  { rewrite Ho in Hops. apply Forall_app in Hops as [_ Hops].
    now inversion Hops. }
  rewrite Hnum in Hpos. rewrite Hnum.
  exists (array_text init op last). eexists.
  split; [now apply math_blocks_block|].
  split; [now apply serialized_layout|]. now split.
Qed.

Lemma serialized_widths_witness :
  exists b lay,
    math_blocks (block_text [7; 1234] (lit "+") 56) = [b]
    /\ parse_block b = Ok lay
    /\ number_width lay = longest [7; 1234; 56]
    /\ final_display_width lay = Z.max (longest [7; 1234; 56] + 2) 5.
Proof.
  apply (serialized_widths (Problem 3 [7; 1234; 56] [lit "+"; lit "+"])
           (block_text [7; 1234] (lit "+") 56)).
  - split; [reflexivity|]. now repeat constructor.
  - repeat constructor; lia.
  - reflexivity.
Defined.

(** X20. The text drawn for a serialized problem with non-negative
    operands: every operand but the last behind two blanks, the last
    behind its sign and one blank, all right-justified to the longest
    operand, then a rule of dashes. *)
Theorem serialized_text (init : list Z) (last : Z) (ops : list str)
  (op : str) :
  is_sign op = true ->
  Forall (fun x => 0 <= x) (init ++ [last]) ->
  let p := Problem (len (init ++ [last])) (init ++ [last]) (ops ++ [op]) in
  let w := longest (init ++ [last]) in
  exists s b,
    serialize p = Ok s
    /\ math_blocks s = [b]
    /\ simplified_latex_block b
       = Ok (join [NL]
               (map (fun x => lit "  " ++ rjust (str_of_int x) w) init
                ++ [op ++ lit " " ++ rjust (str_of_int last) w;
                    str_mul (lit "-") (Z.max (w + 2) 5)])).
Proof.
  intros Hop Hall p w. exists (block_text init op last).
  exists (array_text init op last).
  split; [apply serialize_shape|].
  split; [now apply math_blocks_block|].
  unfold simplified_latex_block.
  rewrite serialized_layout by assumption. cbv zeta. cbn [rbind].
  unfold aligned_output_lines.
  cbn [lines number_width has_operator final_display_width].
  rewrite map_app, map_map. cbn [map aligned_line]. cbv zeta.
  fold w. do 4 f_equal.
  destruct op as [|c op]; [discriminate|].
  now rewrite <- app_assoc.
Qed.

Lemma serialized_text_witness :
  exists s b,
    serialize (Problem (len ([7; 123] ++ [45])) ([7; 123] ++ [45])
                 ([lit "+"] ++ [lit "-"]))
    = Ok s
    /\ math_blocks s = [b]
    /\ simplified_latex_block b
       = Ok (join [NL]
               (map (fun x =>
                       lit "  "
                       ++ rjust (str_of_int x) (longest ([7; 123] ++ [45])))
                  [7; 123]
                ++ [lit "-" ++ lit " "
                    ++ rjust (str_of_int 45) (longest ([7; 123] ++ [45]));
                    str_mul (lit "-")
                      (Z.max (longest ([7; 123] ++ [45]) + 2) 5)])).
Proof.
  apply (serialized_text [7; 123] 45 [lit "+"] (lit "-")).
  - reflexivity.
  - repeat constructor; lia.
Defined.

End Rendering.

(** * Further properties of the construction of the text *)

Section SerializationMore.

Local Open Scope Z_scope.

(** X21. The text of a problem depends on the list of operators through
    its last element only: the operators before it are never read. *)
Theorem serialize_reads_last_operator
  (n : Z) (ns : list Z) (ops ops' : list str) (op : str) :
  serialize (Problem n ns (ops ++ [op]))
  = serialize (Problem n ns (ops' ++ [op])).
Proof.
  unfold serialize. cbn [n_numbers numbers operators].
  now rewrite !getitem_last.
Qed.

Lemma synthesize_operators (operation_type : str) (max_stack_height : Z)
  (g : rng) (p : problem) (g' : rng) :
  synthesize operation_type max_stack_height g = Ok (p, g') ->
  (n_numbers p = 2
   /\ operators p
      = if str_eqb operation_type (lit "minus") then [lit "-"]
        else if str_eqb operation_type (lit "mix")
             then operators p
             else [lit "+"])
  \/ (n_numbers p <> 2
      /\ Forall (fun o => o = lit "+") (operators p)
      /\ (str_eqb operation_type (lit "plus")
          || str_eqb operation_type (lit "mix") = false ->
          operators p = [])).
Proof.
  intros Hrun. pose proof (synthesize_cases _ _ _ _ _ Hrun) as Hc.
  unfold synthesize in Hrun. unfold bind at 1 in Hrun.
  destruct (randint 2 max_stack_height g) as [[n g1]|] eqn:E0; [|discriminate].
  destruct (Z.eqb_spec n 2) as [-> | Hn].
  - left. unfold bind at 1 in Hrun.
    destruct (randint 10 999 g1) as [[a g2]|] eqn:Ea; [|discriminate].
    unfold bind at 1 in Hrun.
    destruct (randint 1 99 g2) as [[b g3]|] eqn:Eb; [|discriminate].
    unfold bind at 1 in Hrun.
    destruct (str_eqb operation_type (lit "minus")) eqn:Emin.
    + unfold ret at 1 in Hrun. unfold bind at 1 in Hrun.
      destruct ((if a <=? b
                 then r <- randint 10 50 ;; ret (b + r, a)
                 else ret (a, b)) g3) as [[ab g4]|]; [|discriminate].
      cbn in Hrun. injection Hrun as <- _. now split.
    + destruct (str_eqb operation_type (lit "mix")) eqn:Emix.
      * destruct (choice [true; false] g3) as [[sub g4]|]; [|discriminate].
        destruct sub.
        -- unfold bind at 1 in Hrun.
           destruct ((if a <=? b
                      then r <- randint 10 50 ;; ret (b + r, a)
                      else ret (a, b)) g4) as [[ab g5]|]; [|discriminate].
           cbn in Hrun. injection Hrun as <- _. now split.
        -- cbn in Hrun. injection Hrun as <- _. now split.
      * cbn in Hrun. injection Hrun as <- _. now split.
  - right. destruct Hc as (_ & _ & _ & [[H2 _] | [Hne Hops]]).
    + exfalso. unfold bind at 1 in Hrun.
      match type of Hrun with
      | context [for_each ?l ?f ?a g1] =>
          destruct (for_each l f a g1) as [[xs g2]|]; [|discriminate]
      end.
      cbn in Hrun. injection Hrun as <- _. now apply Hn.
    + split; [exact Hne|]. rewrite Hops.
      destruct (str_eqb operation_type (lit "plus")
                || str_eqb operation_type (lit "mix")).
      * split; [|discriminate]. apply Forall_forall.
        intros o Ho. now apply repeat_spec in Ho.
      * split; [constructor | reflexivity].
Qed.

(** X22. What the mode does to the operators of a generated problem: in
    the [plus] mode every operator is [+]; in the [minus] mode a problem
    with two operands has the one operator [-] and a problem with more
    has no operator at all; and whatever the mode, a problem with more
    than two operands holds no [-]. *)
Theorem mode_fixes_operators
  (operation_type : str) (max_stack_height : Z) (g : rng)
  (p : problem) (g' : rng) :
  synthesize operation_type max_stack_height g = Ok (p, g') ->
  (operation_type = lit "plus" ->
   Forall (fun o => o = lit "+") (operators p))
  /\ (operation_type = lit "minus" ->
      (n_numbers p = 2 /\ operators p = [lit "-"])
      \/ (n_numbers p <> 2 /\ operators p = []))
  /\ (n_numbers p <> 2 -> Forall (fun o => o = lit "+") (operators p)).
Proof.
  intros H.
  destruct (synthesize_operators _ _ _ _ _ H)
    as [[H2 Hops] | (Hne & Hall & Hnil)].
  - split; [|split].
    + intros ->. rewrite Hops. cbn. now repeat constructor.
    + intros ->. left. now split.
    + intros Hne. contradiction.
  - split; [|split].
    + intros _. exact Hall.
    + intros ->. right. split; [exact Hne|]. now apply Hnil.
    + intros _. exact Hall.
Qed.

Lemma mode_fixes_operators_witness :
  (lit "minus" = lit "plus" ->
   Forall (fun o => o = lit "+") [lit "-"])
  /\ (lit "minus" = lit "minus" ->
      (2 = 2 /\ [lit "-"] = [lit "-"])
      \/ (2 <> 2 /\ [lit "-"] = []))
  /\ (2 <> 2 -> Forall (fun o => o = lit "+") [lit "-"]).
Proof.
  apply (mode_fixes_operators (lit "minus") 2
           (fun n => match n with 2%nat => 50 | _ => 0 end)
           (Problem 2 [61; 10] [lit "-"]) (fun _ => 0)).
  reflexivity.
Defined.

(** X23. Every text that [generate_problem_latex] returns is a dollar
    span around one array environment with one operand per line, the
    sign in front of the last operand only, and the rule: between 2 and
    [max_stack_height] operands, each between 1 and 999. *)
Theorem generated_block_form
  (operation_type : str) (max_stack_height : Z) (g : rng)
  (s : str) (g' : rng) :
  generate_problem_latex operation_type max_stack_height g = Ok (s, g') ->
  exists init op last,
    (op = lit "+" \/ op = lit "-")
    /\ s = lit "$ \begin{array}{r}" ++ [NL]
           ++ concat (map (fun x => lit " " ++ str_of_int x ++ lit "  \\"
                                    ++ [NL]) init)
           ++ lit " " ++ op ++ str_of_int last ++ lit "  \\" ++ [NL]
           ++ lit " \hline " ++ [NL] ++ lit "\end{array} $"
    /\ Forall (fun x => 1 <= x <= 999) (init ++ [last])
    /\ 2 <= len (init ++ [last]) <= max_stack_height.
Proof.
  intros H.
  destruct (generated_shape operation_type max_stack_height s)
    as (init & op & last & Hop & -> & Hall & Hlen);
    [now exists g, g'|].
  exists init, op, last. split; [|split; [|now split]].
  - now apply is_sign_cases.
  - unfold block_text, array_text, body, line_end, dollar.
    norm_app. reflexivity.
Qed.

Lemma generated_block_form_witness :
  exists init op last,
    (op = lit "+" \/ op = lit "-")
    /\ block_text [10] (lit "+") 1
       = lit "$ \begin{array}{r}" ++ [NL]
         ++ concat (map (fun x => lit " " ++ str_of_int x ++ lit "  \\"
                                  ++ [NL]) init)
         ++ lit " " ++ op ++ str_of_int last ++ lit "  \\" ++ [NL]
         ++ lit " \hline " ++ [NL] ++ lit "\end{array} $"
    /\ Forall (fun x => 1 <= x <= 999) (init ++ [last])
    /\ 2 <= len (init ++ [last]) <= 4.
Proof.
  apply (generated_block_form (lit "plus") 4
           (fun n => match n with 0%nat => 3 | _ => 0 end)
           (block_text [10] (lit "+") 1) (fun _ => 0)).
  reflexivity.
Defined.

Lemma minus_ok_shape (max_stack_height : Z) (g : rng) (s : str) (g' : rng) :
  generate_problem_latex (lit "minus") max_stack_height g = Ok (s, g') ->
  exists a b,
    1 <= b /\ b < a /\ a <= 999 /\ s = block_text [a] (lit "-") b.
Proof.
  unfold generate_problem_latex, bind, lift. intros H.
  destruct (synthesize (lit "minus") max_stack_height g) as [[p g1]|] eqn:E;
    [|discriminate].
  destruct (serialize p) as [s'|] eqn:Es; [|discriminate].
  injection H as <- _.
  destruct (synthesize_cases _ _ _ _ _ E) as (_ & Hlen & _ & _).
  destruct (serialize_ok_inv p s' Hlen Es)
    as (init & last & ops & op & Hnum & Ho & ->).
  destruct (synthesize_operators _ _ _ _ _ E)
    as [[H2 Hops] | (_ & _ & Hnil)].
  - change (str_eqb (lit "minus") (lit "minus")) with true in Hops.
    cbv iota in Hops.
    destruct (synthesize_ranges_aux _ _ _ _ _ E)
      as [(_ & a & b & Hab & Ha & Hb & Hlt) | [Hne _]]; [|contradiction].
    specialize (Hlt Hops). rewrite Hops in Ho. rewrite Hab in Hnum.
    change [a; b] with ([a] ++ [b]) in Hnum.
    apply app_inj_tail in Hnum as [<- <-].
    change [lit "-"] with ([] ++ [lit "-"]) in Ho.
    apply app_inj_tail in Ho as [_ <-].
    exists a, b. repeat split; lia.
  - rewrite Hnil in Ho by reflexivity. now destruct ops.
Qed.

(** X24. The outcomes of [generate_problem_latex] in the [minus] mode,
    for every bound and every sequence of draws: a success is a problem
    with two operands, the first strictly greater than the second, with
    the sign [-]; a [ValueError] only comes with a bound below 2, an
    [IndexError] only with a bound of at least 3. *)
Theorem minus_mode_outcomes (max_stack_height : Z) (g : rng) :
  match generate_problem_latex (lit "minus") max_stack_height g with
  | Ok (s, _) =>
      exists a b,
        1 <= b /\ b < a /\ a <= 999
        /\ s = lit "$ \begin{array}{r}" ++ [NL]
               ++ lit " " ++ str_of_int a ++ lit "  \\" ++ [NL]
               ++ lit " -" ++ str_of_int b ++ lit "  \\" ++ [NL]
               ++ lit " \hline " ++ [NL] ++ lit "\end{array} $"
  | Raise ValueError => max_stack_height < 2
  | Raise IndexError => 3 <= max_stack_height
  | Raise SystemExit => False
  end.
Proof.
  destruct (generate_problem_latex (lit "minus") max_stack_height g)
    as [[s g']|e] eqn:E.
  - destruct (minus_ok_shape _ _ _ _ E) as (a & b & Hb & Hlt & Ha & ->).
    exists a, b. repeat split; try assumption.
    unfold block_text, array_text, body, line_end, dollar.
    cbn [map concat]. rewrite app_nil_r. norm_app. reflexivity.
  - destruct (Z.ltb_spec max_stack_height 2) as [Hlt | Hge].
    + unfold generate_problem_latex, synthesize, bind, randint in E.
      assert (E2 : (max_stack_height <? 2) = true) by (apply Z.ltb_lt; lia).
      rewrite E2 in E. injection E as <-. exact Hlt.
    + destruct (Z.eq_dec (g O mod (max_stack_height - 2 + 1)) 0) as [H0 | H0].
      * destruct (generate_minus_two max_stack_height g Hge H0)
          as (s & g' & E'). congruence.
      * rewrite (generate_minus_raises max_stack_height g Hge H0) in E.
        injection E as <-.
        destruct (Z.eq_dec max_stack_height 2) as [-> | Hne]; [|lia].
        exfalso. apply H0. apply Z.mod_1_r.
Qed.

End SerializationMore.
